(** * The task-registry bootstrap of ubxlib's automation package

    Source: [port/platform/common/automation/tasks/__init__.py].

    The module body is sixteen statements: three imports, the creation of a
    [Collection] and of a [Config], three item assignments on the [Config],
    [ns.configure(cfg)] and seven [ns.add_collection(...)] calls.  It is
    embedded here as a list of monadic steps over the module's globals and a
    store of dictionary objects, so that a failed statement, the order of
    the statements and the identity of the dictionaries can all be talked
    about.

    [Collection] and [Config] come from the [invoke] package.  Their methods
    are embedded as far as this module uses them: names go through
    [Collection.transform]; [Config()] starts from the library's defaults
    and merges the system and user settings files over them; an item
    assignment on a [Config] merges again and fails when a string meets a
    mapping; [configure] merges entries into the collection's own
    dictionary; [add_collection] turns a module into a collection with
    [Collection.from_module].  Left out of the library: task aliases and
    default tasks, and modules that bring an [ns] or [namespace] attribute
    of their own.

    [scripts.u_utils] and the seven task modules are part of the repository
    but not of this file; what the imports find, the settings files and the
    home directory are parameters ([World]). *)

From Stdlib Require Import Ascii String.
From stdpp Require Import gmap strings list fin_maps.

Set Warnings "-register-all".

(** ** Python values and objects *)

(** What a configuration entry can hold.  The module itself only stores
    strings; the other shapes are what [Config()] may already carry.  A
    mapping lists its items in insertion order. *)
Inductive Value : Type :=
| VNone
| VBool (b : bool)
| VInt (z : Z)
| VStr (s : string)
| VDict (items : list (string * Value)).

(** A dictionary object: [Config]'s data, or a collection's
    [_configuration]. *)
Abbreviation dict := (gmap string Value).

(** Dictionaries are mutable and compared by identity, so they live in a
    store and are named by their position in it. *)
Definition loc := nat.
Abbreviation heap_t := (list (gmap string Value)).

(** An [invoke.Task], by the name a collection files it under. *)
Record Task := { task_name : string }.

(** [invoke.Collection]: [name], the [tasks] and [collections] lexicons and
    the reference to the [_configuration] dictionary. *)
Inductive Collection : Type := mkCollection {
  name : option string;
  tasks : gmap string Task;
  collections : gmap string Collection;
  _configuration : loc
}.

(** A task module as the import system hands it over: [__name__] (its last
    dotted component) and the [Task] instances among its attributes.  The
    module has no [ns] or [namespace] attribute. *)
Record Module := { mod_name : string; mod_tasks : list Task }.

(** [scripts.u_utils], as far as this module reads it. *)
Record UUtils := { UBXLIB_DIR : string; AUTOMATION_DIR : string }.

(** Exceptions.  [CannotImportName nm] is the [ImportError] of a
    [from ... import nm] that finds no [nm]; [AmbiguousMergeError] is
    [invoke]'s, without the clashing values its message shows. *)
Inductive Exn : Type :=
| ImportError (what : string)
| PathError (msg : string)
| ValueError (msg : string)
| NameError (ident : string)
| AttributeError (msg : string)
| AmbiguousMergeError
| CannotImportName (nm : string).

(** ** The environment the module is imported in *)

Inductive Import (A : Type) : Type :=
| Loaded (a : A)
| Failed (e : Exn).
Arguments Loaded {A} a.
Arguments Failed {A} e.

(** The [invoke] package as installed: whether it imports, and
    [Config.global_defaults()]. *)
Record Invoke := {
  load_invoke : Import unit;
  config_defaults : gmap string Value
}.

(** Everything else outside the module.
    - [load_u_utils]: what [from scripts import u_utils] finds.
    - [absent nm]: the package has no submodule [nm], so that importing it
      raises the [ModuleNotFoundError] a from-list ignores.
    - [load_task_module nm]: what importing the submodule [nm] gives when
      there is one.
    - [environ]: the environment variables; [pw_dir]: the home directory
      of the password database, if the user has an entry.
    - [files]: what [invoke]'s loaders make of the file at a path:
      [Loaded v] when it parses to [v], [Failed e] when opening or parsing
      it raises [e]; no entry where there is no file. *)
Record World := {
  load_u_utils : Import UUtils;
  absent : string -> bool;
  load_task_module : string -> Import (list Task);
  environ : gmap string string;
  pw_dir : option string;
  files : gmap string (Import Value)
}.

(** ** Module state *)

(** The module's globals and the store.  [g_invoke] stands for the two
    imported classes, [g_modules] for the names bound by
    [from . import ...]. *)
Record State := {
  heap : heap_t;
  g_invoke : bool;
  g_u_utils : option UUtils;
  g_modules : gmap string Module;
  g_ns : option Collection;
  g_cfg : option loc
}.

Definition initial_state : State :=
  {| heap := []; g_invoke := false; g_u_utils := None; g_modules := ∅;
     g_ns := None; g_cfg := None |}.

Definition set_heap (h : heap_t) (s : State) : State :=
  {| heap := h; g_invoke := g_invoke s; g_u_utils := g_u_utils s;
     g_modules := g_modules s; g_ns := g_ns s; g_cfg := g_cfg s |}.

Definition set_invoke (s : State) : State :=
  {| heap := heap s; g_invoke := true; g_u_utils := g_u_utils s;
     g_modules := g_modules s; g_ns := g_ns s; g_cfg := g_cfg s |}.

Definition set_u_utils (u : UUtils) (s : State) : State :=
  {| heap := heap s; g_invoke := g_invoke s; g_u_utils := Some u;
     g_modules := g_modules s; g_ns := g_ns s; g_cfg := g_cfg s |}.

Definition set_module (m : Module) (s : State) : State :=
  {| heap := heap s; g_invoke := g_invoke s; g_u_utils := g_u_utils s;
     g_modules := <[mod_name m := m]> (g_modules s); g_ns := g_ns s;
     g_cfg := g_cfg s |}.

Definition set_ns (c : Collection) (s : State) : State :=
  {| heap := heap s; g_invoke := g_invoke s; g_u_utils := g_u_utils s;
     g_modules := g_modules s; g_ns := Some c; g_cfg := g_cfg s |}.

Definition set_cfg (l : loc) (s : State) : State :=
  {| heap := heap s; g_invoke := g_invoke s; g_u_utils := g_u_utils s;
     g_modules := g_modules s; g_ns := g_ns s; g_cfg := Some l |}.

(** ** Statements: state and exceptions *)

(** A statement either finishes in a new state or raises, leaving the
    globals as they were when it raised. *)
Inductive Res (A : Type) : Type :=
| Ok (a : A) (s : State)
| Raise (e : Exn) (s : State).
Arguments Ok {A} a s.
Arguments Raise {A} e s.

Definition M (A : Type) : Type := State -> Res A.

Definition ret {A} (a : A) : M A := fun s => Ok a s.
Definition bind {A B} (c : M A) (k : A -> M B) : M B :=
  fun s => match c s with
           | Ok a s' => k a s'
           | Raise e s' => Raise e s'
           end.
Definition raise {A} (e : Exn) : M A := fun s => Raise e s.
Definition gets {A} (f : State -> A) : M A := fun s => Ok (f s) s.
Definition modify (f : State -> State) : M unit := fun s => Ok tt (f s).

Notation "x <- c ;; k" := (bind c (fun x => k))
  (at level 100, c at next level, right associativity).
Notation "c ;; k" := (bind c (fun _ => k))
  (at level 100, right associativity).

(** A computation that touches no state: its value, or its exception. *)
Definition lift {A} (r : Exn + A) : M A :=
  match r with
  | inl e => raise e
  | inr a => ret a
  end.

(** Reading a global that is not bound is a [NameError]. *)
Definition global {A} (ident : string) (f : State -> option A) : M A :=
  o <- gets f ;;
  match o with
  | Some a => ret a
  | None => raise (NameError ident)
  end.

(** A new dictionary object. *)
Definition alloc (d : gmap string Value) : M loc :=
  h <- gets heap ;;
  modify (set_heap (h ++ [d])) ;;
  ret (length h).

Definition deref (l : loc) : M (gmap string Value) :=
  h <- gets heap ;;
  match h !! l with
  | Some d => ret d
  | None => raise (NameError "dangling reference")
  end.

Definition store (l : loc) (d : gmap string Value) : M unit :=
  h <- gets heap ;;
  modify (set_heap (<[l := d]> h)).

(** ** [invoke.util]: merging *)

Fixpoint assoc (k : string) (items : list (string * Value)) : option Value :=
  match items with
  | [] => None
  | (k', v) :: items' => if bool_decide (k' = k) then Some v else assoc k items'
  end.

(** Assignment to a key a mapping holds: the item keeps its place. *)
Fixpoint assoc_set (k : string) (v : Value) (items : list (string * Value))
    : list (string * Value) :=
  match items with
  | [] => []
  | (k', v') :: items' =>
      if bool_decide (k' = k) then (k', v) :: items'
      else (k', v') :: assoc_set k v items'
  end.

(** What [merge_dicts] leaves under a key that [base] holds as [b] and
    [updates] as [v]: two mappings are merged item by item, a mapping and
    anything else do not merge ([None] stands for [AmbiguousMergeError]),
    and otherwise the update wins.  Items of a key new to [base] go to its
    end. *)
Fixpoint merge_value (b v : Value) {struct v} : option Value :=
  match v with
  | VDict us =>
      match b with
      | VDict bs =>
          VDict <$>
          (fix go (us : list (string * Value)) (bs : list (string * Value))
             : option (list (string * Value)) :=
             match us with
             | [] => Some bs
             | (k, u) :: us' =>
                 match assoc k bs with
                 | Some b' =>
                     match merge_value b' u with
                     | Some m => go us' (assoc_set k m bs)
                     | None => None
                     end
                 | None => go us' (bs ++ [(k, u)])
                 end
             end) us bs
      | _ => None
      end
  | _ =>
      match b with
      | VDict _ => None
      | _ => Some v
      end
  end.

Definition merge_item (base : gmap string Value) (kv : string * Value)
    : option (gmap string Value) :=
  match base !! kv.1 with
  | Some b =>
      match merge_value b kv.2 with
      | Some m => Some (<[kv.1 := m]> base)
      | None => None
      end
  | None => Some (<[kv.1 := kv.2]> base)
  end.

(** [merge_dicts(base, updates)] for the items of [updates], in their
    order; [None] when it raises [AmbiguousMergeError]. *)
Fixpoint merge_dicts (base : gmap string Value) (updates : list (string * Value))
    : option (gmap string Value) :=
  match updates with
  | [] => Some base
  | kv :: updates' =>
      match merge_item base kv with
      | Some base' => merge_dicts base' updates'
      | None => None
      end
  end.

(** ** [invoke.Collection] *)

(** [Collection.transform] with [auto_dash_names] at its default: an
    underscore becomes a dash unless it is the first or last character or
    sits next to a dot.  [prev] is the character before [s] in the
    original name. *)
Fixpoint transform_rest (prev : ascii) (s : string) : string :=
  match s with
  | EmptyString => EmptyString
  | String c EmptyString => String c EmptyString
  | String c (String next _ as rest) =>
      String (if bool_decide (c = "_"%char ∧ prev ≠ "."%char ∧ next ≠ "."%char)
              then "-"%char else c)
             (transform_rest c rest)
  end.

Definition transform (nm : string) : string :=
  match nm with
  | EmptyString => EmptyString
  | String c rest => String c (transform_rest c rest)
  end.

(** [repr] of a name, as the error messages show it: in double quotes when
    the name holds a single quote and no double quote, in single quotes
    otherwise, with backslashes and that quote escaped.  (Control
    characters, which [repr] also escapes, are left as they are.) *)
Definition double_quote : ascii := ascii_of_nat 34.

Fixpoint has_char (c : ascii) (s : string) : bool :=
  match s with
  | EmptyString => false
  | String c' s' => Ascii.eqb c c' || has_char c s'
  end.

Definition backslash : ascii := ascii_of_nat 92.

Fixpoint escape (q : ascii) (s : string) : string :=
  match s with
  | EmptyString => EmptyString
  | String c s' =>
      if Ascii.eqb c backslash || Ascii.eqb c q
      then String backslash (String c (escape q s'))
      else String c (escape q s')
  end.

Definition repr (s : string) : string :=
  let q := if has_char "'"%char s && negb (has_char double_quote s)
           then double_quote else "'"%char in
  String q (escape q s +:+ String q EmptyString).

(** [Collection(name)] and [Collection()]: empty lexicons and a dictionary
    of its own. *)
Definition Collection_init (nm : option string) : M Collection :=
  l <- alloc ∅ ;;
  ret {| name := transform <$> nm; tasks := ∅; collections := ∅;
         _configuration := l |}.

(** [Collection.add_task(task)]. *)
Definition add_task (self : Collection) (t : Task) : M Collection :=
  let nm := transform (task_name t) in
  match collections self !! nm with
  | Some _ =>
      raise (ValueError ("Name conflict: this collection has a sub-collection named "
                         +:+ repr nm +:+ " already"))
  | None =>
      ret {| name := name self; tasks := <[nm := t]> (tasks self);
             collections := collections self;
             _configuration := _configuration self |}
  end.

Fixpoint add_tasks (self : Collection) (ts : list Task) : M Collection :=
  match ts with
  | [] => ret self
  | t :: ts' => self' <- add_task self t ;; add_tasks self' ts'
  end.

(** [Collection.from_module(module)] for a module without an [ns] or
    [namespace] attribute: a collection named after the module, holding
    the module's tasks. *)
Definition from_module (m : Module) : M Collection :=
  c <- Collection_init (Some (mod_name m)) ;;
  add_tasks c (mod_tasks m).

(** [Collection.configure(options)]: merges the items of [options] into
    the collection's own dictionary.  (Where the merge fails, [invoke]
    leaves the dictionary partly merged; here it is left as it was.  The
    module configures a namespace whose dictionary is empty, where no
    merge fails.) *)
Definition configure (self : Collection) (options : loc) : M unit :=
  updates <- deref options ;;
  base <- deref (_configuration self) ;;
  match merge_dicts base (map_to_list updates) with
  | Some d => store (_configuration self) d
  | None => raise AmbiguousMergeError
  end.

(** [Collection.add_collection(coll)] with a module for [coll]. *)
Definition add_collection (self : Collection) (m : Module) : M Collection :=
  coll <- from_module m ;;
  match name coll with
  | None => raise (ValueError "Non-root collections must have a name!")
  | Some nm =>
      if bool_decide (nm = "")
      then raise (ValueError "Non-root collections must have a name!")
      else
        let nm' := transform nm in
        match tasks self !! nm' with
        | Some _ =>
            raise (ValueError ("Name conflict: this collection has a task named "
                               +:+ repr nm' +:+ " already"))
        | None =>
            ret {| name := name self; tasks := tasks self;
                   collections := <[nm' := coll]> (collections self);
                   _configuration := _configuration self |}
        end
  end.

(** ** [invoke.Config] *)

(** The suffixes a settings file is looked for under, in this order. *)
Definition file_suffixes : list string := ["yaml"; "yml"; "json"; "py"].

(** [str.rstrip('/')]. *)
Fixpoint rstrip_slash (s : string) : string :=
  match s with
  | EmptyString => EmptyString
  | String c s' =>
      match rstrip_slash s' with
      | EmptyString => if Ascii.eqb c "/"%char then EmptyString else String c EmptyString
      | r => String c r
      end
  end.

(** The home directory [os.path.expanduser] uses on a POSIX system:
    [$HOME] when it is set, the password database otherwise. *)
Definition user_home (w : World) : option string :=
  match environ w !! "HOME" with
  | Some h => Some h
  | None => pw_dir w
  end.

(** [os.path.expanduser("~" + rest)] for a [rest] that starts with a
    slash; without a home directory the path is left as it is. *)
Definition expanduser (w : World) (rest : string) : string :=
  match user_home w with
  | Some h =>
      match rstrip_slash h +:+ rest with
      | EmptyString => "/"
      | p => p
      end
  | None => "~" +:+ rest
  end.

Definition system_paths : list string :=
  (fun x => "/etc/invoke." +:+ x) <$> file_suffixes.

Definition user_paths (w : World) : list string :=
  (fun x => expanduser w ("/.invoke." +:+ x)) <$> file_suffixes.

(** [Config._load_file]: the first of [paths] that holds a file is loaded;
    a path without a file is skipped, any other failure is raised. *)
Fixpoint load_first (w : World) (paths : list string) : Exn + option Value :=
  match paths with
  | [] => inr None
  | p :: paths' =>
      match files w !! p with
      | None => load_first w paths'
      | Some (Loaded v) => inr (Some v)
      | Some (Failed e) => inl e
      end
  end.

Definition truthy (v : Value) : bool :=
  match v with
  | VNone => false
  | VBool b => b
  | VInt z => negb (z =? 0)%Z
  | VStr s => negb (bool_decide (s = ""))
  | VDict items => negb (bool_decide (items = []))
  end.

Definition type_name (v : Value) : string :=
  match v with
  | VNone => "NoneType"
  | VBool _ => "bool"
  | VInt _ => "int"
  | VStr _ => "str"
  | VDict _ => "dict"
  end.

(** [(updates or {}).items()]. *)
Definition items_of (v : Value) : Exn + list (string * Value) :=
  match v with
  | VDict items => inr items
  | _ =>
      if truthy v
      then inl (AttributeError ("'" +:+ type_name v +:+ "' object has no attribute 'items'"))
      else inr []
  end.

(** [Config._merge_file]: the data of a file that was found is merged
    over what is there. *)
Definition merge_file (base : gmap string Value) (data : option Value)
    : Exn + gmap string Value :=
  match data with
  | None => inr base
  | Some v =>
      match items_of v with
      | inl e => inl e
      | inr items =>
          match merge_dicts base items with
          | Some d => inr d
          | None => inl AmbiguousMergeError
          end
      end
  end.

(** The entries [Config()] starts with: the system file and the user file
    are loaded, then merged in this order over the defaults. *)
Definition Config_start (lib : Invoke) (w : World) : Exn + gmap string Value :=
  match load_first w system_paths with
  | inl e => inl e
  | inr sys =>
      match load_first w (user_paths w) with
      | inl e => inl e
      | inr usr =>
          match merge_file (config_defaults lib) sys with
          | inl e => inl e
          | inr d => merge_file d usr
          end
      end
  end.

(** [Config()]. *)
Definition Config_init (lib : Invoke) (w : World) : M loc :=
  d <- lift (Config_start lib w) ;;
  alloc d.

(** [cfg[key] = value] for a string [value], on a [Config] whose earlier
    item assignments were of strings and succeeded.  The assignment is
    recorded and everything is merged again; the merge raises when the
    settings hold a mapping under [key], and has then rebuilt the entries
    as they were. *)
Definition Config_setitem (self : loc) (key : string) (v : string) : M unit :=
  d <- deref self ;;
  match d !! key with
  | Some (VDict _) => raise AmbiguousMergeError
  | _ => store self (<[key := VStr v]> d)
  end.

(** ** The statements of the module *)

Definition import_invoke (lib : Invoke) : M unit :=
  match load_invoke lib with
  | Loaded _ => modify set_invoke
  | Failed e => raise e
  end.

Definition import_u_utils (w : World) : M unit :=
  match load_u_utils w with
  | Loaded u => modify (set_u_utils u)
  | Failed e => raise e
  end.

(** The import of one submodule of the from-list: a submodule that is not
    there is passed over, one that is there is bound in the package (whose
    attributes are this module's globals), and any other failure is
    raised. *)
Definition import_task_module (w : World) (nm : string) : M unit :=
  if absent w nm then ret tt
  else
    match load_task_module w nm with
    | Loaded ts => modify (set_module {| mod_name := nm; mod_tasks := ts |})
    | Failed e => raise e
    end.

Fixpoint import_submodules (w : World) (names : list string) : M unit :=
  match names with
  | [] => ret tt
  | nm :: names' => import_task_module w nm ;; import_submodules w names'
  end.

(** Taking one name from the package: the submodule imported just before,
    or an [ImportError] when there is none.  Binding the name changes
    nothing, the package's attributes being the globals. *)
Definition import_from (w : World) (nm : string) : M unit :=
  if absent w nm then raise (CannotImportName nm) else ret tt.

Fixpoint import_names (w : World) (names : list string) : M unit :=
  match names with
  | [] => ret tt
  | nm :: names' => import_from w nm ;; import_names w names'
  end.

(** [from . import a, b, ...]: the submodules of the whole list are
    imported first, then the names are taken one by one.  The import
    system is taken to answer for a submodule as the world says, also when
    the package holds a binding of that name already (in a second
    execution that binding is the same module). *)
Definition import_task_modules (w : World) (names : list string) : M unit :=
  import_submodules w names ;; import_names w names.

Definition invoke_class (ident : string) : M unit :=
  b <- gets g_invoke ;;
  if b : bool then ret tt else raise (NameError ident).

(** [ns = Collection()] *)
Definition new_ns : M unit :=
  invoke_class "Collection" ;;
  c <- Collection_init None ;;
  modify (set_ns c).

(** [cfg = Config()] *)
Definition new_cfg (lib : Invoke) (w : World) : M unit :=
  invoke_class "Config" ;;
  l <- Config_init lib w ;;
  modify (set_cfg l).

Definition ubxlib_dir : M string :=
  u <- global "u_utils" g_u_utils ;; ret (UBXLIB_DIR u).

Definition automation_dir : M string :=
  u <- global "u_utils" g_u_utils ;; ret (AUTOMATION_DIR u).

(** [cfg[key] = rhs]: the right-hand side is evaluated first. *)
Definition assign_item (key : string) (rhs : M string) : M unit :=
  v <- rhs ;;
  l <- global "cfg" g_cfg ;;
  Config_setitem l key v.

(** [ns.configure(cfg)] *)
Definition ns_configure : M unit :=
  ns <- global "ns" g_ns ;;
  l <- global "cfg" g_cfg ;;
  configure ns l.

(** [ns.add_collection(module)] *)
Definition ns_add_collection (nm : string) : M unit :=
  ns <- global "ns" g_ns ;;
  m <- global nm (fun s => g_modules s !! nm) ;;
  ns' <- add_collection ns m ;;
  modify (set_ns ns').

Definition task_modules : list string :=
  ["nrfconnect"; "nrf5"; "stm32cube"; "esp_idf"; "arduino"; "automation";
   "linux"].

(** The module body, statement by statement. *)
Definition program (lib : Invoke) (w : World) : list (M unit) :=
  [ import_invoke lib;
    import_u_utils w;
    import_task_modules w task_modules;
    new_ns;
    new_cfg lib w;
    assign_item "root_dir" ubxlib_dir;
    assign_item "vscode_dir" (d <- ubxlib_dir ;; ret (d +:+ "/.vscode"));
    assign_item "cfg_dir" automation_dir;
    ns_configure;
    ns_add_collection "nrfconnect";
    ns_add_collection "nrf5";
    ns_add_collection "stm32cube";
    ns_add_collection "esp_idf";
    ns_add_collection "arduino";
    ns_add_collection "automation";
    ns_add_collection "linux" ].

Fixpoint run (p : list (M unit)) : M unit :=
  match p with
  | [] => ret tt
  | c :: p' => c ;; run p'
  end.

(** Importing the module in world [w], starting from globals [s]. *)
Definition construct_from (lib : Invoke) (w : World) (s : State) : Res unit :=
  run (program lib w) s.

Definition construct (lib : Invoke) (w : World) : Res unit :=
  construct_from lib w initial_state.

(** ** What the construction is expected to leave behind *)

(** The tasks a world offers under a module name (none if the import
    fails). *)
Definition tasks_in (w : World) (nm : string) : list Task :=
  match load_task_module w nm with
  | Loaded ts => ts
  | Failed _ => []
  end.

Definition module_in (w : World) (nm : string) : Module :=
  {| mod_name := nm; mod_tasks := tasks_in w nm |}.

(** The lexicon [add_tasks] builds on top of [lex]. *)
Definition task_lexicon (lex : gmap string Task) (ts : list Task) : gmap string Task :=
  foldl (fun acc t => <[transform (task_name t) := t]> acc) lex ts.

(** The collection [from_module] makes of module [m], with its dictionary
    at [l]. *)
Definition sub_collection (l : loc) (m : Module) : Collection :=
  {| name := Some (transform (mod_name m));
     tasks := task_lexicon ∅ (mod_tasks m);
     collections := ∅;
     _configuration := l |}.

(** [self] after [add_collection] of [m], with the new dictionary at [l]. *)
Definition with_collection (self : Collection) (l : loc) (m : Module) : Collection :=
  {| name := name self; tasks := tasks self;
     collections := <[transform (transform (mod_name m)) := sub_collection l m]>
                      (collections self);
     _configuration := _configuration self |}.

Fixpoint with_collections (self : Collection) (l : loc) (ms : list Module) : Collection :=
  match ms with
  | [] => self
  | m :: ms' => with_collections (with_collection self l m) (S l) ms'
  end.

(** The entries [Config()] starts with, where it does not raise. *)
Definition started (lib : Invoke) (w : World) : gmap string Value :=
  match Config_start lib w with
  | inr d => d
  | inl _ => ∅
  end.

(** The entries of [cfg] after the three assignments. *)
Definition cfg_entries (lib : Invoke) (w : World) (u : UUtils) : gmap string Value :=
  <["cfg_dir" := VStr (AUTOMATION_DIR u)]>
    (<["vscode_dir" := VStr (UBXLIB_DIR u +:+ "/.vscode")]>
       (<["root_dir" := VStr (UBXLIB_DIR u)]> (started lib w))).

(** The module body in three phases. *)
Definition imports (lib : Invoke) (w : World) : list (M unit) :=
  [ import_invoke lib; import_u_utils w; import_task_modules w task_modules ].

Definition setup (lib : Invoke) (w : World) : list (M unit) :=
  [ new_ns; new_cfg lib w;
    assign_item "root_dir" ubxlib_dir;
    assign_item "vscode_dir" (d <- ubxlib_dir ;; ret (d +:+ "/.vscode"));
    assign_item "cfg_dir" automation_dir;
    ns_configure ].

Definition additions (names : list string) : list (M unit) :=
  map ns_add_collection names.

Definition after_imports (w : World) (u : UUtils) (s : State) : State :=
  foldl (fun acc nm => set_module (module_in w nm) acc)
        (set_u_utils u (set_invoke s)) task_modules.

Definition after_setup (lib : Invoke) (w : World) (u : UUtils) (s : State) : State :=
  {| heap := heap s ++ [cfg_entries lib w u; cfg_entries lib w u];
     g_invoke := g_invoke s; g_u_utils := g_u_utils s;
     g_modules := g_modules s;
     g_ns := Some (mkCollection None ∅ ∅ (length (heap s)));
     g_cfg := Some (S (length (heap s))) |}.

(** State after the setup and the additions of [names], started in [s]. *)
Definition after_additions (lib : Invoke) (w : World) (u : UUtils)
    (names : list string) (s : State) : State :=
  {| heap := heap s ++ [cfg_entries lib w u; cfg_entries lib w u]
                    ++ replicate (length names) ∅;
     g_invoke := true;
     g_u_utils := Some u;
     g_modules := foldl (fun acc nm => <[nm := module_in w nm]> acc)
                        (g_modules s) task_modules;
     g_ns := Some (with_collections (mkCollection None ∅ ∅ (length (heap s)))
                     (length (heap s) + 2) (map (module_in w) names));
     g_cfg := Some (S (length (heap s))) |}.

(** The globals and the store after a successful import of the module. *)
Definition final_state (lib : Invoke) (w : World) (u : UUtils) (s : State) : State :=
  after_additions lib w u task_modules s.

(** The namespace as [ns = Collection()] leaves it, with its empty
    dictionary at [l]. *)
Definition bare_namespace (l : loc) : Collection := mkCollection None ∅ ∅ l.

(** ** Vocabulary of the properties *)

Definition required_keys : list string := ["root_dir"; "vscode_dir"; "cfg_dir"].



Definition imports_succeed (lib : Invoke) (w : World) : Prop :=
  (exists x, load_invoke lib = Loaded x) /\
  (exists u, load_u_utils w = Loaded u) /\
  (forall nm, nm ∈ task_modules -> exists ts, load_task_module w nm = Loaded ts) /\
  (forall nm, nm ∈ task_modules -> absent w nm = false).

Definition import_fails (lib : Invoke) (w : World) : Prop :=
  (exists e, load_invoke lib = Failed e) \/
  (exists e, load_u_utils w = Failed e) \/
  (exists nm, nm ∈ task_modules /\
              (absent w nm = true \/ exists e, load_task_module w nm = Failed e)).

(** [e] is the exception of one of the module's imports. *)
Definition raised_by_import (lib : Invoke) (w : World) (e : Exn) : Prop :=
  load_invoke lib = Failed e \/
  load_u_utils w = Failed e \/
  (exists nm, nm ∈ task_modules /\ absent w nm = false /\
              load_task_module w nm = Failed e) \/
  (exists nm, nm ∈ task_modules /\ absent w nm = true /\ e = CannotImportName nm).

(** A string can be assigned under [key]: the settings hold no mapping
    there. *)
Definition assignable (d : gmap string Value) (key : string) : Prop :=
  forall items, d !! key <> Some (VDict items).

(** The settings [Config()] loads merge, and leave room for the three
    keys. *)
Definition settings_fit (lib : Invoke) (w : World) : Prop :=
  exists d, Config_start lib w = inr d /\
            forall k, k ∈ required_keys -> assignable d k.

(** The inputs with which the construction completes. *)
Definition valid_inputs (lib : Invoke) (w : World) : Prop :=
  imports_succeed lib w /\ settings_fit lib w.

(** The entries of the [Config] object bound to [cfg]. *)
Definition cfg_dict (s : State) : option (gmap string Value) :=
  match g_cfg s with
  | Some l => heap s !! l
  | None => None
  end.

(** The entries of the namespace's own configuration. *)
Definition ns_dict (s : State) : option (gmap string Value) :=
  match g_ns s with
  | Some ns => heap s !! _configuration ns
  | None => None
  end.

Definition has_keys (d : gmap string Value) : Prop :=
  forall k, k ∈ required_keys -> is_Some (d !! k).

(** Both [cfg] and the namespace hold the three keys. *)
Definition configured (s : State) : Prop :=
  exists dc dn, cfg_dict s = Some dc /\ ns_dict s = Some dn /\
                has_keys dc /\ has_keys dn.

(** The namespace holds no sub-collection (or is not bound yet). *)
Definition no_collections (s : State) : Prop :=
  forall ns, g_ns s = Some ns -> collections ns = ∅.


(** There is no namespace, or one that has no sub-collection and no
    configuration entry yet. *)
Definition nothing_built (s : State) : Prop :=
  g_ns s = None \/
  exists ns, g_ns s = Some ns /\ collections ns = ∅ /\ tasks ns = ∅ /\
             heap s !! _configuration ns = Some ∅.

(** The state in which the setup raises: the namespace is bound as
    [Collection()] made it, and what existed before is untouched. *)
Definition setup_stopped (s s' : State) : Prop :=
  g_ns s' = Some (bare_namespace (length (heap s))) /\
  heap s' !! length (heap s) = Some ∅ /\
  g_u_utils s' = g_u_utils s /\ g_modules s' = g_modules s /\
  forall l d, heap s !! l = Some d -> heap s' !! l = Some d.

(** [c]'s configuration is the very object bound to [cfg]. *)
Definition shares_cfg (s : State) (c : Collection) : Prop :=
  g_cfg s = Some (_configuration c).

(** What a collection holds, whatever the addresses of its dictionaries. *)
Definition collection_contents (h : heap_t) (c : Collection)
    : option string * gmap string Task * gset string * option (gmap string Value) :=
  (name c, tasks c, dom (collections c), h !! _configuration c).

(** What the construction built: the namespace with its sub-collections,
    and the entries of [cfg]. *)
Definition contents (s : State) :=
  (option_map (fun ns => (collection_contents (heap s) ns,
                          collection_contents (heap s) <$> collections ns))
              (g_ns s),
   cfg_dict s).


(** What the construction built, where it completes. *)
Definition built (r : Res unit) :=
  match r with
  | Ok _ s => Some (contents s)
  | Raise _ _ => None
  end.



(** ** Sample environments *)

Definition sample_lib : Invoke :=
  {| load_invoke := Loaded tt;
     config_defaults := {[ "tasks" := VDict [("auto_dash_names", VBool true)] ]} |}.

Definition sample_u_utils : UUtils :=
  {| UBXLIB_DIR := "/ubxlib";
     AUTOMATION_DIR := "/ubxlib/port/platform/common/automation" |}.

Definition sample_tasks : list Task :=
  [ {| task_name := "check_installation" |}; {| task_name := "build" |} ].

Definition sample_world : World :=
  {| load_u_utils := Loaded sample_u_utils;
     absent := fun _ => false;
     load_task_module := fun _ => Loaded sample_tasks;
     environ := {[ "HOME" := "/home/ci" ]};
     pw_dir := None;
     files := ∅ |}.

(** The same repository and settings seen from another process: other
    environment variables, other files. *)
Definition other_world : World :=
  {| load_u_utils := Loaded sample_u_utils;
     absent := fun _ => false;
     load_task_module := fun _ => Loaded sample_tasks;
     environ := {[ "HOME" := "/home/ci"; "UBXLIB_FEATURES" := "cell" ]};
     pw_dir := Some "/home/ci";
     files := {[ "/etc/hosts" := Loaded (VStr "127.0.0.1 localhost") ]} |}.

(** The same repository again, for a user whose [~/.invoke.yaml] turns
    command echoing on. *)
Definition tuned_world : World :=
  {| load_u_utils := Loaded sample_u_utils;
     absent := fun _ => false;
     load_task_module := fun _ => Loaded sample_tasks;
     environ := {[ "HOME" := "/home/ci" ]};
     pw_dir := None;
     files := {[ "/home/ci/.invoke.yaml" :=
                   Loaded (VDict [("run", VDict [("echo", VBool true)])]) ]} |}.


(** A system whose [/etc/invoke.yaml] holds a table under [cfg_dir]. *)
Definition clashing_world : World :=
  {| load_u_utils := Loaded sample_u_utils;
     absent := fun _ => false;
     load_task_module := fun _ => Loaded sample_tasks;
     environ := {[ "HOME" := "/home/ci" ]};
     pw_dir := None;
     files := {[ "/etc/invoke.yaml" :=
                   Loaded (VDict [("cfg_dir", VDict [("path", VStr "/srv")])]) ]} |}.

(** A user whose [~/.invoke.json] does not parse. *)
Definition unreadable_world : World :=
  {| load_u_utils := Loaded sample_u_utils;
     absent := fun _ => false;
     load_task_module := fun _ => Loaded sample_tasks;
     environ := {[ "HOME" := "/home/ci" ]};
     pw_dir := None;
     files := {[ "/home/ci/.invoke.json" :=
                   Failed (ValueError "Expecting value: line 1 column 1 (char 0)") ]} |}.

(** [u_utils] cannot resolve the repository root. *)
Definition broken_world : World :=
  {| load_u_utils := Failed (PathError "cannot locate the ubxlib root");
     absent := fun _ => false;
     load_task_module := fun _ => Loaded [ {| task_name := "build" |} ];
     environ := ∅; pw_dir := None; files := ∅ |}.

(** [u_utils] resolves both directories to the empty string. *)
Definition empty_paths_world : World :=
  {| load_u_utils := Loaded {| UBXLIB_DIR := ""; AUTOMATION_DIR := "" |};
     absent := fun _ => false;
     load_task_module := fun _ => Loaded sample_tasks;
     environ := ∅; pw_dir := None; files := ∅ |}.


(** The value a dictionary (if there is one) binds to [key]. *)
Definition entry (d : option (gmap string Value)) (key : string) : option Value :=
  match d with
  | Some m => m !! key
  | None => None
  end.

(** The state the construction ends in, in the sample environment. *)
Definition sample_final : State :=
  final_state sample_lib sample_world sample_u_utils initial_state.

(** A statement that leaves the binding of [ns] alone. *)
Definition keeps_ns (c : M unit) : Prop :=
  forall s s', c s = Ok tt s' -> g_ns s' = g_ns s.

(** A statement that cannot give the namespace a sub-collection. *)
Definition adds_no_collection (c : M unit) : Prop :=
  forall s s', c s = Ok tt s' -> no_collections s -> no_collections s'.


(** A repository whose task modules each bind two tasks to one name: a
    function [flash_all] and a task given the name ['flash-all']. *)
Definition shadowing_world : World :=
  {| load_u_utils := Loaded sample_u_utils;
     absent := fun _ => false;
     load_task_module := fun _ =>
       Loaded [ {| task_name := "flash_all" |}; {| task_name := "flash-all" |} ];
     environ := ∅; pw_dir := None; files := ∅ |}.

(** The key a task is filed under. *)
Definition task_key (t : Task) : string := transform (task_name t).

(** ** Sequencing *)

Lemma run_cons_ok (c : M unit) (p : list (M unit)) (s s' : State) :
  c s = Ok tt s' -> run (c :: p) s = run p s'.
Proof. intros H. simpl. unfold bind. rewrite H. reflexivity. Qed.

Lemma run_cons_raise (c : M unit) (p : list (M unit)) (s s' : State) (e : Exn) :
  c s = Raise e s' -> run (c :: p) s = Raise e s'.
Proof. intros H. simpl. unfold bind. rewrite H. reflexivity. Qed.

Lemma run_cons_eq (c : M unit) (p : list (M unit)) (s : State) :
  run (c :: p) s =
  match c s with
  | Ok _ s' => run p s'
  | Raise e s' => Raise e s'
  end.
Proof. reflexivity. Qed.

Lemma run_app (p q : list (M unit)) (s : State) :
  run (p ++ q) s =
  match run p s with
  | Ok _ s' => run q s'
  | Raise e s' => Raise e s'
  end.
Proof.
  revert s. induction p as [|c p IH]; intros s; [reflexivity|].
  simpl. unfold bind. destruct (c s) as [[] s'|e s']; [apply IH | reflexivity].
Qed.

(** ** Merging *)

(** Items of distinct keys, none of them in [base], are all added. *)
Lemma merge_dicts_new (updates : list (string * Value)) : forall base,
  NoDup updates.*1 ->
  (forall k, k ∈ updates.*1 -> base !! k = None) ->
  merge_dicts base updates = Some (list_to_map updates ∪ base).
Proof.
  induction updates as [|[k v] updates IH]; intros base Hnd Hnew.
  - simpl. by rewrite (left_id_L ∅ (∪)).
  - rewrite fmap_cons in Hnd, Hnew. cbn [fst] in Hnd, Hnew.
    apply NoDup_cons in Hnd as [Hk Hnd].
    cbn [merge_dicts]. unfold merge_item. cbn [fst snd].
    rewrite (Hnew k) by left.
    rewrite IH; [|done|].
    + f_equal. rewrite list_to_map_cons, <- insert_union_l. symmetry.
      apply insert_union_r. by apply not_elem_of_list_to_map_1.
    + intros k' Hk'. rewrite lookup_insert_ne; [apply Hnew; by right|].
      intros ->. by apply Hk.
Qed.

(** Merging a dictionary into an empty one copies it. *)
Lemma merge_dicts_empty (d : gmap string Value) :
  merge_dicts ∅ (map_to_list d) = Some d.
Proof.
  rewrite merge_dicts_new.
  - by rewrite (right_id_L ∅ (∪)), list_to_map_to_list.
  - apply NoDup_fst_map_to_list.
  - intros k _. apply lookup_empty.
Qed.

(** ** The statements one by one *)

Lemma import_invoke_ok lib s x :
  load_invoke lib = Loaded x -> import_invoke lib s = Ok tt (set_invoke s).
Proof. intros H. unfold import_invoke. rewrite H. reflexivity. Qed.

Lemma import_u_utils_ok w s u :
  load_u_utils w = Loaded u -> import_u_utils w s = Ok tt (set_u_utils u s).
Proof. intros H. unfold import_u_utils. rewrite H. reflexivity. Qed.

Lemma import_submodules_ok w names : forall s,
  (forall nm, nm ∈ names -> exists ts, load_task_module w nm = Loaded ts) ->
  (forall nm, nm ∈ names -> absent w nm = false) ->
  import_submodules w names s =
  Ok tt (foldl (fun acc nm => set_module (module_in w nm) acc) s names).
Proof.
  induction names as [|nm names IH]; intros s H Ha; [reflexivity|].
  destruct (H nm) as [ts Hts]; [left|].
  simpl. unfold bind, import_task_module, module_in, tasks_in.
  rewrite (Ha nm) by left. rewrite Hts. simpl.
  apply IH; intros nm' Hin; [apply H | apply Ha]; by right.
Qed.

Lemma import_names_ok w names s :
  (forall nm, nm ∈ names -> absent w nm = false) ->
  import_names w names s = Ok tt s.
Proof.
  induction names as [|nm names IH]; intros Ha; [reflexivity|].
  simpl. unfold bind, import_from. rewrite (Ha nm) by left. simpl.
  apply IH. intros nm' Hin. apply Ha. by right.
Qed.

Lemma import_task_modules_ok w names s :
  (forall nm, nm ∈ names -> exists ts, load_task_module w nm = Loaded ts) ->
  (forall nm, nm ∈ names -> absent w nm = false) ->
  import_task_modules w names s =
  Ok tt (foldl (fun acc nm => set_module (module_in w nm) acc) s names).
Proof.
  intros H Ha. unfold import_task_modules, bind.
  rewrite import_submodules_ok by done. by apply import_names_ok.
Qed.

Lemma new_ns_ok s :
  g_invoke s = true ->
  new_ns s =
  Ok tt (set_ns (mkCollection None ∅ ∅ (length (heap s)))
                (set_heap (heap s ++ [∅]) s)).
Proof. intros H. unfold new_ns, invoke_class, bind, gets. rewrite H. reflexivity. Qed.

Lemma new_cfg_ok lib w s d :
  g_invoke s = true -> Config_start lib w = inr d ->
  new_cfg lib w s =
  Ok tt (set_cfg (length (heap s)) (set_heap (heap s ++ [d]) s)).
Proof.
  intros H Hd. unfold new_cfg, invoke_class, Config_init, bind, gets.
  rewrite H, Hd. reflexivity.
Qed.

Lemma new_cfg_raise lib w s e :
  g_invoke s = true -> Config_start lib w = inl e ->
  new_cfg lib w s = Raise e s.
Proof.
  intros H Hd. unfold new_cfg, invoke_class, Config_init, bind, gets.
  rewrite H, Hd. reflexivity.
Qed.

Lemma assign_item_ok key rhs v s l d :
  rhs s = Ok v s -> g_cfg s = Some l -> heap s !! l = Some d ->
  assignable d key ->
  assign_item key rhs s = Ok tt (set_heap (<[l := <[key := VStr v]> d]> (heap s)) s).
Proof.
  intros Hr Hl Hd Ha. unfold assign_item, bind. rewrite Hr.
  unfold global, bind, gets. rewrite Hl. simpl.
  unfold Config_setitem, deref, bind, gets. rewrite Hd. simpl.
  destruct (d !! key) as [[]|] eqn:E; try reflexivity.
  by destruct (Ha items).
Qed.

Lemma assign_item_raise key rhs v s l d items :
  rhs s = Ok v s -> g_cfg s = Some l -> heap s !! l = Some d ->
  d !! key = Some (VDict items) ->
  assign_item key rhs s = Raise AmbiguousMergeError s.
Proof.
  intros Hr Hl Hd Hk. unfold assign_item, bind. rewrite Hr.
  unfold global, bind, gets. rewrite Hl. simpl.
  unfold Config_setitem, deref, bind, gets. rewrite Hd. simpl.
  by rewrite Hk.
Qed.

(** A string can be assigned, or a mapping is in the way. *)
Lemma assignable_cases (d : gmap string Value) key :
  assignable d key \/ exists items, d !! key = Some (VDict items).
Proof.
  destruct (d !! key) as [[]|] eqn:E; eauto;
    left; intros items'; rewrite E; discriminate.
Qed.

Lemma ns_configure_ok s ns l updates :
  g_ns s = Some ns -> g_cfg s = Some l ->
  heap s !! l = Some updates -> heap s !! _configuration ns = Some ∅ ->
  ns_configure s =
  Ok tt (set_heap (<[_configuration ns := updates]> (heap s)) s).
Proof.
  intros Hns Hl Hu Hb. unfold ns_configure, global, bind, gets.
  rewrite Hns. simpl. rewrite Hl. simpl. unfold configure, deref, bind, gets.
  rewrite Hu. simpl. rewrite Hb. simpl. by rewrite merge_dicts_empty.
Qed.

Lemma add_tasks_ok ts : forall self s,
  collections self = ∅ ->
  add_tasks self ts s =
  Ok {| name := name self; tasks := task_lexicon (tasks self) ts;
        collections := ∅; _configuration := _configuration self |} s.
Proof.
  induction ts as [|t ts IH]; intros self s Hc.
  - destruct self; simpl in *; subst; reflexivity.
  - simpl. unfold bind, add_task. rewrite Hc, lookup_empty. simpl.
    rewrite IH by reflexivity. reflexivity.
Qed.

Lemma from_module_ok m s :
  from_module m s =
  Ok (sub_collection (length (heap s)) m) (set_heap (heap s ++ [∅]) s).
Proof.
  unfold from_module, bind. simpl. rewrite add_tasks_ok by reflexivity.
  reflexivity.
Qed.

Lemma transform_empty nm : transform nm = "" -> nm = "".
Proof. destruct nm; [reflexivity | discriminate]. Qed.

Lemma add_collection_ok self m s :
  mod_name m <> "" ->
  tasks self !! transform (transform (mod_name m)) = None ->
  add_collection self m s =
  Ok (with_collection self (length (heap s)) m) (set_heap (heap s ++ [∅]) s).
Proof.
  intros Hn Ht. unfold add_collection, bind. rewrite from_module_ok. simpl.
  rewrite bool_decide_eq_false_2.
  - rewrite Ht. reflexivity.
  - intros E. apply Hn, transform_empty, E.
Qed.

Lemma ns_add_collection_ok nm s ns m :
  g_ns s = Some ns -> g_modules s !! nm = Some m ->
  mod_name m <> "" ->
  tasks ns !! transform (transform (mod_name m)) = None ->
  ns_add_collection nm s =
  Ok tt (set_ns (with_collection ns (length (heap s)) m)
                (set_heap (heap s ++ [∅]) s)).
Proof.
  intros Hns Hm Hn Ht. unfold ns_add_collection, global, bind, gets.
  rewrite Hns. simpl. rewrite Hm. simpl.
  rewrite (add_collection_ok _ _ _ Hn Ht). reflexivity.
Qed.

Lemma ubxlib_dir_ok s u : g_u_utils s = Some u -> ubxlib_dir s = Ok (UBXLIB_DIR u) s.
Proof. intros H. unfold ubxlib_dir, global, bind, gets. rewrite H. reflexivity. Qed.

Lemma automation_dir_ok s u :
  g_u_utils s = Some u -> automation_dir s = Ok (AUTOMATION_DIR u) s.
Proof. intros H. unfold automation_dir, global, bind, gets. rewrite H. reflexivity. Qed.

Lemma vscode_dir_ok s u :
  g_u_utils s = Some u ->
  (d <- ubxlib_dir ;; ret (d +:+ "/.vscode")) s = Ok (UBXLIB_DIR u +:+ "/.vscode") s.
Proof. intros H. unfold bind. rewrite (ubxlib_dir_ok _ _ H). reflexivity. Qed.

(** ** The store *)

Lemma heap_insert_at (h t : heap_t) (d0 d : gmap string Value) :
  <[length h := d]> (h ++ d0 :: t) = h ++ d :: t.
Proof.
  rewrite insert_app_r_alt by lia. rewrite Nat.sub_diag. reflexivity.
Qed.

Lemma heap_lookup_at (h t : heap_t) (d : gmap string Value) :
  (h ++ d :: t) !! length h = Some d.
Proof. by apply list_lookup_middle. Qed.

Lemma heap_lookup_next (h t : heap_t) (d0 d : gmap string Value) :
  (h ++ d0 :: d :: t) !! S (length h) = Some d.
Proof.
  replace (h ++ d0 :: d :: t) with ((h ++ [d0]) ++ d :: t)
    by (rewrite <- app_assoc; reflexivity).
  apply list_lookup_middle. rewrite length_app. simpl. lia.
Qed.

Lemma heap_insert_next (h t : heap_t) (d0 d1 d : gmap string Value) :
  <[S (length h) := d]> (h ++ d0 :: d1 :: t) = h ++ d0 :: d :: t.
Proof.
  rewrite insert_app_r_alt by lia.
  replace (S (length h) - length h) with 1 by lia. reflexivity.
Qed.

(** ** The setup *)

Lemma started_eq lib w d : Config_start lib w = inr d -> started lib w = d.
Proof. intros H. unfold started. by rewrite H. Qed.

Lemma settings_fit_started lib w :
  settings_fit lib w ->
  Config_start lib w = inr (started lib w) /\
  forall k, k ∈ required_keys -> assignable (started lib w) k.
Proof. intros (d & Hd & Ha). by rewrite (started_eq _ _ _ Hd). Qed.

Lemma assignable_insert_ne (d : gmap string Value) k k' v :
  k' <> k -> assignable d k -> assignable (<[k' := v]> d) k.
Proof. intros Hne Ha items. rewrite lookup_insert_ne by done. apply Ha. Qed.

Lemma setup_ok lib w u s :
  g_invoke s = true -> g_u_utils s = Some u ->
  settings_fit lib w ->
  run (setup lib w) s = Ok tt (after_setup lib w u s).
Proof.
  intros Hi Hu Hfit. apply settings_fit_started in Hfit as [Hd Ha].
  unfold setup.
  rewrite (run_cons_ok _ _ _ _ (new_ns_ok s Hi)).
  erewrite run_cons_ok; [|apply new_cfg_ok; [exact Hi | exact Hd]].
  simpl heap. rewrite length_app. simpl length. rewrite Nat.add_1_r.
  rewrite <- app_assoc. simpl app.
  erewrite run_cons_ok;
    [|eapply assign_item_ok;
      [apply ubxlib_dir_ok; exact Hu | reflexivity | apply heap_lookup_next
      | apply Ha; set_solver]].
  simpl heap. rewrite heap_insert_next.
  erewrite run_cons_ok;
    [|eapply assign_item_ok;
      [apply vscode_dir_ok; exact Hu | reflexivity | apply heap_lookup_next
      | apply assignable_insert_ne; [done | apply Ha; set_solver]]].
  simpl heap. rewrite heap_insert_next.
  erewrite run_cons_ok;
    [|eapply assign_item_ok;
      [apply automation_dir_ok; exact Hu | reflexivity | apply heap_lookup_next
      | do 2 (apply assignable_insert_ne; [done|]); apply Ha; set_solver]].
  simpl heap. rewrite heap_insert_next.
  erewrite run_cons_ok;
    [|eapply ns_configure_ok;
      [reflexivity | reflexivity | apply heap_lookup_next | apply heap_lookup_at]].
  simpl. unfold ret, after_setup. rewrite heap_insert_at. reflexivity.
Qed.

Ltac stopped :=
  unfold setup_stopped; cbn [g_ns g_u_utils g_modules heap set_ns set_cfg set_heap];
  split; [reflexivity|]; split; [apply heap_lookup_at|];
  split; [reflexivity|]; split; [reflexivity|];
  intros ? ? ?; by apply lookup_app_l_Some.

(** The setup completes exactly when the settings fit; where it raises,
    the namespace is still as [Collection()] made it. *)
Lemma setup_cases lib w u s :
  g_invoke s = true -> g_u_utils s = Some u ->
  (settings_fit lib w /\ run (setup lib w) s = Ok tt (after_setup lib w u s)) \/
  (~ settings_fit lib w /\
   exists e s', run (setup lib w) s = Raise e s' /\ setup_stopped s s').
Proof.
  intros Hi Hu.
  destruct (Config_start lib w) as [e|d] eqn:Hd.
  { right. split; [intros (d & Hd' & _); congruence|].
    eexists e, _. split.
    - unfold setup. rewrite (run_cons_ok _ _ _ _ (new_ns_ok s Hi)).
      apply run_cons_raise, new_cfg_raise; [exact Hi | exact Hd].
    - stopped. }
  assert (Hno : forall k items, k ∈ required_keys ->
                  d !! k = Some (VDict items) -> ~ settings_fit lib w).
  { intros k items Hk E (d' & Hd' & Ha).
    assert (d' = d) as -> by congruence. by destruct (Ha k Hk items). }
  destruct (assignable_cases d "root_dir") as [A1|[items E1]].
  2:{ right. split; [apply (Hno "root_dir" items); [set_solver | done]|].
      eexists _, _. split.
      - unfold setup. rewrite (run_cons_ok _ _ _ _ (new_ns_ok s Hi)).
        erewrite run_cons_ok; [|apply new_cfg_ok; [exact Hi | exact Hd]].
        simpl heap. rewrite length_app. simpl length. rewrite Nat.add_1_r.
        rewrite <- app_assoc. simpl app.
        apply run_cons_raise.
        eapply assign_item_raise;
          [apply ubxlib_dir_ok; exact Hu | reflexivity | apply heap_lookup_next
          | exact E1].
      - stopped. }
  destruct (assignable_cases d "vscode_dir") as [A2|[items E2]].
  2:{ right. split; [apply (Hno "vscode_dir" items); [set_solver | done]|].
      eexists _, _. split.
      - unfold setup. rewrite (run_cons_ok _ _ _ _ (new_ns_ok s Hi)).
        erewrite run_cons_ok; [|apply new_cfg_ok; [exact Hi | exact Hd]].
        simpl heap. rewrite length_app. simpl length. rewrite Nat.add_1_r.
        rewrite <- app_assoc. simpl app.
        erewrite run_cons_ok;
          [|eapply assign_item_ok;
            [apply ubxlib_dir_ok; exact Hu | reflexivity | apply heap_lookup_next
            | exact A1]].
        simpl heap. rewrite heap_insert_next.
        apply run_cons_raise.
        eapply assign_item_raise;
          [apply vscode_dir_ok; exact Hu | reflexivity | apply heap_lookup_next
          | rewrite lookup_insert_ne by done; exact E2].
      - stopped. }
  destruct (assignable_cases d "cfg_dir") as [A3|[items E3]].
  2:{ right. split; [apply (Hno "cfg_dir" items); [set_solver | done]|].
      eexists _, _. split.
      - unfold setup. rewrite (run_cons_ok _ _ _ _ (new_ns_ok s Hi)).
        erewrite run_cons_ok; [|apply new_cfg_ok; [exact Hi | exact Hd]].
        simpl heap. rewrite length_app. simpl length. rewrite Nat.add_1_r.
        rewrite <- app_assoc. simpl app.
        erewrite run_cons_ok;
          [|eapply assign_item_ok;
            [apply ubxlib_dir_ok; exact Hu | reflexivity | apply heap_lookup_next
            | exact A1]].
        simpl heap. rewrite heap_insert_next.
        erewrite run_cons_ok;
          [|eapply assign_item_ok;
            [apply vscode_dir_ok; exact Hu | reflexivity | apply heap_lookup_next
            | by apply assignable_insert_ne]].
        simpl heap. rewrite heap_insert_next.
        apply run_cons_raise.
        eapply assign_item_raise;
          [apply automation_dir_ok; exact Hu | reflexivity | apply heap_lookup_next
          | rewrite !lookup_insert_ne by done; exact E3].
      - stopped. }
  left.
  assert (Hfit : settings_fit lib w).
  { exists d. split; [done|]. intros k Hk. unfold required_keys in Hk.
    repeat (apply elem_of_cons in Hk as [->|Hk]); [done .. | by apply elem_of_nil in Hk]. }
  split; [exact Hfit | by apply setup_ok].
Qed.

(** ** The additions *)

Lemma additions_ok w names : forall s ns,
  g_ns s = Some ns -> tasks ns = ∅ ->
  (forall nm, nm ∈ names -> nm <> "" /\ g_modules s !! nm = Some (module_in w nm)) ->
  run (additions names) s =
  Ok tt (set_ns (with_collections ns (length (heap s)) (map (module_in w) names))
                (set_heap (heap s ++ replicate (length names) ∅) s)).
Proof.
  unfold additions.
  induction names as [|nm names IH]; intros s ns Hns Ht Hm.
  - simpl. unfold ret. destruct s; simpl in *; subst.
    unfold set_ns, set_heap; simpl. rewrite app_nil_r. reflexivity.
  - destruct (Hm nm) as [Hne Hnm]; [left|].
    simpl map.
    erewrite run_cons_ok;
      [|eapply ns_add_collection_ok;
        [exact Hns | exact Hnm | exact Hne | rewrite Ht; apply lookup_empty]].
    erewrite IH; [| reflexivity | exact Ht |].
    + unfold set_ns, set_heap; simpl.
      rewrite length_app, <- app_assoc. simpl. rewrite Nat.add_1_r. reflexivity.
    + intros nm' Hin. simpl. apply Hm. by right.
Qed.

(** ** The whole module *)

Lemma program_phases lib w :
  program lib w = imports lib w ++ setup lib w ++ additions task_modules.
Proof. reflexivity. Qed.

Lemma imports_ok lib w s x u :
  load_invoke lib = Loaded x -> load_u_utils w = Loaded u ->
  (forall nm, nm ∈ task_modules -> exists ts, load_task_module w nm = Loaded ts) ->
  (forall nm, nm ∈ task_modules -> absent w nm = false) ->
  run (imports lib w) s = Ok tt (after_imports w u s).
Proof.
  intros Hi Hu Hm Ha. unfold imports.
  rewrite (run_cons_ok _ _ _ _ (import_invoke_ok lib s x Hi)).
  erewrite run_cons_ok; [|apply import_u_utils_ok; exact Hu].
  erewrite run_cons_ok; [|apply import_task_modules_ok; [exact Hm | exact Ha]].
  reflexivity.
Qed.

Lemma after_imports_globals w u s :
  g_invoke (after_imports w u s) = true /\
  g_u_utils (after_imports w u s) = Some u /\
  g_ns (after_imports w u s) = g_ns s /\
  g_cfg (after_imports w u s) = g_cfg s /\
  heap (after_imports w u s) = heap s.
Proof. by repeat split. Qed.

Lemma task_modules_bound lib w u s nm :
  nm ∈ task_modules ->
  nm <> "" /\
  g_modules (after_setup lib w u (after_imports w u s)) !! nm = Some (module_in w nm).
Proof.
  intros Hin. unfold task_modules in Hin.
  repeat (apply elem_of_cons in Hin as [->|Hin]);
    [split; [done | simpl; by simplify_map_eq] .. | by apply elem_of_nil in Hin].
Qed.

(** The state after the imports, the setup and the additions of [names]. *)
Lemma prefix_ok lib w s u names :
  run (imports lib w) s = Ok tt (after_imports w u s) ->
  settings_fit lib w ->
  names ⊆ task_modules ->
  run (imports lib w ++ setup lib w ++ additions names) s =
  Ok tt (after_additions lib w u names s).
Proof.
  intros Hi Hfit Hsub.
  rewrite run_app, Hi, run_app, (setup_ok lib w u) by (reflexivity || exact Hfit).
  erewrite additions_ok; [| reflexivity | reflexivity |].
  - unfold after_additions, set_ns, set_heap. simpl.
    rewrite length_app, <- app_assoc. reflexivity.
  - intros nm Hin. apply task_modules_bound, Hsub, Hin.
Qed.

Lemma construct_from_ok lib w s u :
  load_u_utils w = Loaded u -> valid_inputs lib w ->
  construct_from lib w s = Ok tt (final_state lib w u s).
Proof.
  intros Hu (((x & Hx) & _ & Hm & Ha) & Hfit). unfold construct_from, final_state.
  rewrite program_phases. apply prefix_ok; [|done|done].
  by eapply imports_ok.
Qed.

(** ** Failing statements *)

(** The first pass of the from-list import either runs through, binding
    the submodules that are there, or raises what a submodule raised. *)
Lemma import_submodules_cases w names : forall s,
  ((forall nm, nm ∈ names ->
      absent w nm = true \/ exists ts, load_task_module w nm = Loaded ts) /\
   exists s', import_submodules w names s = Ok tt s' /\
              g_ns s' = g_ns s /\ g_cfg s' = g_cfg s /\ heap s' = heap s) \/
  (exists e s' nm,
      import_submodules w names s = Raise e s' /\ nm ∈ names /\
      absent w nm = false /\ load_task_module w nm = Failed e /\
      g_ns s' = g_ns s /\ g_cfg s' = g_cfg s /\ heap s' = heap s).
Proof.
  induction names as [|nm names IH]; intros s.
  - left. split; [intros nm H; by apply elem_of_nil in H|]. by exists s.
  - simpl. unfold bind, import_task_module.
    destruct (absent w nm) eqn:Ea.
    + simpl. destruct (IH s) as [[H (s' & E & Hs)]|(e & s' & nm' & E & Hin & Hr)].
        * left. split; [|by exists s'].
          intros nm' [->|Hin]%elem_of_cons; [by left | by apply H].
        * right. exists e, s', nm'. split; [done|]. split; [by right | done].
    + destruct (load_task_module w nm) as [ts|e] eqn:El.
      * simpl.
        destruct (IH (set_module {| mod_name := nm; mod_tasks := ts |} s))
          as [[H (s' & E & Hs)]|(e & s' & nm' & E & Hin & Hr)].
        -- left. split; [|by exists s'].
           intros nm' [->|Hin]%elem_of_cons; [right; eauto | by apply H].
        -- right. exists e, s', nm'. split; [done|]. split; [by right | done].
      * right. exists e, s, nm. simpl. split; [done|]. split; [left | done].
Qed.

(** The second pass stops at the first name without a submodule. *)
Lemma import_names_cases w names s :
  (forall nm, nm ∈ names -> absent w nm = false) \/
  (exists nm, nm ∈ names /\ absent w nm = true /\
              import_names w names s = Raise (CannotImportName nm) s).
Proof.
  induction names as [|nm names IH].
  - left. intros nm H. by apply elem_of_nil in H.
  - simpl. unfold bind, import_from. destruct (absent w nm) eqn:Ea.
    + right. exists nm. split; [left | done].
    + simpl. destruct IH as [H|(nm' & Hin & Ha & E)].
      * left. by intros nm' [->|Hin]%elem_of_cons; [|apply H].
      * right. exists nm'. split; [by right | done].
Qed.

Lemma import_task_modules_cases w names s :
  ((forall nm, nm ∈ names -> exists ts, load_task_module w nm = Loaded ts) /\
   (forall nm, nm ∈ names -> absent w nm = false)) \/
  (exists e s',
      import_task_modules w names s = Raise e s' /\
      ((exists nm, nm ∈ names /\ absent w nm = false /\
                   load_task_module w nm = Failed e) \/
       (exists nm, nm ∈ names /\ absent w nm = true /\ e = CannotImportName nm)) /\
      g_ns s' = g_ns s /\ g_cfg s' = g_cfg s /\ heap s' = heap s).
Proof.
  unfold import_task_modules, bind.
  destruct (import_submodules_cases w names s)
    as [[H (s' & E & Hs)]|(e & s' & nm & E & Hin & Ha & Hl & Hs)]; rewrite E.
  - destruct (import_names_cases w names s') as [Ha|(nm & Hin & Ha & En)].
    + left. split; [|done]. intros nm Hin.
      destruct (H nm Hin) as [Hab|Hts]; [|done].
      rewrite (Ha nm Hin) in Hab. discriminate.
    + right. exists (CannotImportName nm), s'. split; [done|].
      split; [right; by exists nm | done].
  - right. exists e, s'. split; [done|]. split; [left; by exists nm | done].
Qed.

(** The imports either all succeed, or the failure is raised before
    anything has been bound to [ns] or [cfg]. *)
Lemma imports_cases lib w s :
  (exists x u,
      load_invoke lib = Loaded x /\ load_u_utils w = Loaded u /\
      (forall nm, nm ∈ task_modules -> exists ts, load_task_module w nm = Loaded ts) /\
      (forall nm, nm ∈ task_modules -> absent w nm = false) /\
      run (imports lib w) s = Ok tt (after_imports w u s)) \/
  (exists e s',
      run (imports lib w) s = Raise e s' /\ raised_by_import lib w e /\
      g_ns s' = g_ns s /\ g_cfg s' = g_cfg s /\ heap s' = heap s).
Proof.
  destruct (load_invoke lib) as [x|e] eqn:Hi.
  2:{ right. exists e, s. split; [|by repeat split; try left].
      apply run_cons_raise. unfold import_invoke. by rewrite Hi. }
  destruct (load_u_utils w) as [u|e] eqn:Hu.
  2:{ right. exists e, (set_invoke s). split; [|by repeat split; try (right; left)].
      unfold imports. rewrite (run_cons_ok _ _ _ _ (import_invoke_ok lib s x Hi)).
      apply run_cons_raise. unfold import_u_utils. by rewrite Hu. }
  destruct (import_task_modules_cases w task_modules (set_u_utils u (set_invoke s)))
    as [[Hm Ha]|(e & s' & H1 & H2 & H3)].
  - left. exists x, u. repeat split; try done. by eapply imports_ok.
  - right. exists e, s'. split; [|split; [right; right; exact H2 | done]].
    unfold imports. rewrite (run_cons_ok _ _ _ _ (import_invoke_ok lib s x Hi)).
    erewrite run_cons_ok; [|apply import_u_utils_ok; exact Hu].
    by apply run_cons_raise.
Qed.

(** The three ways the module body can end: it completes, an import
    fails, or the imports succeed and the setup of [cfg] fails. *)
Lemma construct_from_cases lib w s :
  (exists u,
      load_u_utils w = Loaded u /\ valid_inputs lib w /\
      construct_from lib w s = Ok tt (final_state lib w u s)) \/
  (exists e s',
      construct_from lib w s = Raise e s' /\ raised_by_import lib w e /\
      g_ns s' = g_ns s /\ g_cfg s' = g_cfg s /\ heap s' = heap s) \/
  (exists e s' u,
      construct_from lib w s = Raise e s' /\
      imports_succeed lib w /\ ~ settings_fit lib w /\
      setup_stopped (after_imports w u s) s').
Proof.
  destruct (imports_cases lib w s)
    as [(x & u & Hi & Hu & Hm & Ha & E)|(e & s' & Hr & H)].
  - assert (Hs : imports_succeed lib w) by (repeat split; eauto).
    destruct (setup_cases lib w u (after_imports w u s))
      as [[Hfit _]|(Hfit & e & s' & Er & Hst)]; [reflexivity | reflexivity | |].
    + left. exists u. split; [done|]. split; [by split|].
      by apply construct_from_ok.
    + right. right. exists e, s', u. split; [|done].
      unfold construct_from. by rewrite program_phases, run_app, E, run_app, Er.
  - right. left. exists e, s'. split; [|done].
    unfold construct_from. by rewrite program_phases, run_app, Hr.
Qed.

(** A construction that completes ends in [final_state]. *)
Lemma construct_from_inv lib w s s' :
  construct_from lib w s = Ok tt s' ->
  exists u, load_u_utils w = Loaded u /\ valid_inputs lib w /\
            s' = final_state lib w u s.
Proof.
  intros H.
  destruct (construct_from_cases lib w s)
    as [(u & Hu & Hs & E)|[(e & s'' & E & _)|(e & s'' & u & E & _)]];
    rewrite E in H; [|discriminate..].
  exists u. split; [done|]. split; [done|]. congruence.
Qed.

(** ** Sub-collections of the namespace *)

Lemma with_collections_configuration ms : forall self l,
  _configuration (with_collections self l ms) = _configuration self.
Proof. induction ms as [|m ms IH]; intros; simpl; [done | by rewrite IH]. Qed.

Lemma with_collections_dom ms : forall self l,
  dom (collections (with_collections self l ms)) =
  dom (collections self) ∪
  list_to_set ((fun m => transform (transform (mod_name m))) <$> ms).
Proof.
  induction ms as [|m ms IH]; intros self l; simpl.
  - by rewrite (right_id_L ∅ (∪)).
  - rewrite IH. simpl. rewrite dom_insert_L.
    rewrite (comm_L (∪) {[transform (transform (mod_name m))]}).
    by rewrite (assoc_L (∪)).
Qed.

Lemma with_collections_lookup ms : forall self l nm c,
  collections (with_collections self l ms) !! nm = Some c ->
  collections self !! nm = Some c \/
  exists i m, ms !! i = Some m /\ c = sub_collection (l + i) m.
Proof.
  induction ms as [|m ms IH]; intros self l nm c H; simpl in H; [by left|].
  apply IH in H as [H|(i & m' & Hi & ->)].
  - simpl in H. apply lookup_insert_Some in H as [[_ <-]|[_ H]]; [|by left].
    right. exists 0, m. by rewrite Nat.add_0_r.
  - right. exists (S i), m'. split; [done|]. f_equal. lia.
Qed.




Lemma has_keys_cfg_entries lib w u : has_keys (cfg_entries lib w u).
Proof.
  intros k Hk. unfold required_keys in Hk. unfold cfg_entries.
  repeat (apply elem_of_cons in Hk as [->|Hk]);
    [by simplify_map_eq .. | by apply elem_of_nil in Hk].
Qed.

Lemma cfg_dict_after lib w u names s :
  cfg_dict (after_additions lib w u names s) = Some (cfg_entries lib w u).
Proof. unfold cfg_dict, after_additions. cbn [g_cfg heap]. apply heap_lookup_next. Qed.

Lemma ns_dict_after lib w u names s :
  ns_dict (after_additions lib w u names s) = Some (cfg_entries lib w u).
Proof.
  unfold ns_dict, after_additions. cbn [g_ns heap].
  rewrite with_collections_configuration. apply heap_lookup_at.
Qed.

Lemma lookup_map {A B} (f : A -> B) (l : list A) : forall i,
  map f l !! i = f <$> (l !! i).
Proof. induction l as [|a l IH]; intros [|i]; simpl; auto. Qed.

Lemma sub_collections_after lib w u names s ns nm c :
  g_ns (after_additions lib w u names s) = Some ns ->
  collections ns !! nm = Some c ->
  exists i nm', names !! i = Some nm' /\
                c = sub_collection (length (heap s) + 2 + i) (module_in w nm').
Proof.
  unfold after_additions. cbn [g_ns]. intros H Hc.
  apply (inj Some) in H. subst ns.
  apply with_collections_lookup in Hc as [Hc|(i & m & Hi & ->)].
  - cbn [collections] in Hc. by rewrite lookup_empty in Hc.
  - exists i. rewrite lookup_map in Hi.
    destruct (names !! i) as [nm'|]; [|discriminate].
    exists nm'. split; [done|]. simpl in Hi. congruence.
Qed.


(** ** Names *)

(** A second pass of [transform_rest] finds nothing left to replace. *)
Lemma transform_rest_idempotent s : forall prev prev',
  (prev = "."%char <-> prev' = "."%char) ->
  transform_rest prev' (transform_rest prev s) = transform_rest prev s.
Proof.
  induction s as [|c s IH]; intros prev prev' Hp; [reflexivity|].
  destruct s as [|n r]; [reflexivity|].
  assert (Hhead : exists n' r', transform_rest c (String n r) = String n' r' /\
                                (n = "."%char <-> n' = "."%char)).
  { destruct r as [|n2 r2]; simpl.
    - by exists n, EmptyString.
    - eexists _, _. split; [reflexivity|].
      case_bool_decide as Hb; [|done].
      destruct Hb as (-> & _ & _). split; discriminate. }
  destruct Hhead as (n' & r' & Hn & Hdot).
  change (transform_rest prev (String c (String n r)))
    with (String (if bool_decide (c = "_"%char ∧ prev ≠ "."%char ∧ n ≠ "."%char)
                  then "-"%char else c)
                 (transform_rest c (String n r))).
  set (c' := if bool_decide (c = "_"%char ∧ prev ≠ "."%char ∧ n ≠ "."%char)
             then "-"%char else c).
  assert (Hc' : c = "."%char <-> c' = "."%char).
  { unfold c'. case_bool_decide as Hb; [|done].
    destruct Hb as (-> & _ & _). split; discriminate. }
  assert (Hkept : c' = "_"%char -> ~ (prev ≠ "."%char ∧ n ≠ "."%char)).
  { unfold c'. case_bool_decide as Hb; [discriminate|].
    intros -> Hpn. by apply Hb. }
  rewrite Hn.
  change (transform_rest prev' (String c' (String n' r')))
    with (String (if bool_decide (c' = "_"%char ∧ prev' ≠ "."%char ∧ n' ≠ "."%char)
                  then "-"%char else c')
                 (transform_rest c' (String n' r'))).
  rewrite <- Hn. f_equal.
  - rewrite bool_decide_eq_false_2; [reflexivity|].
    intros (E & Hp' & Hn'). apply (Hkept E).
    split; [by rewrite Hp | by rewrite Hdot].
  - by apply IH.
Qed.

Lemma transform_idempotent nm : transform (transform nm) = transform nm.
Proof.
  destruct nm as [|c s]; [reflexivity|]. simpl. f_equal.
  by apply transform_rest_idempotent.
Qed.

(** ** Sub-collections, key by key *)

Lemma with_collections_name ms : forall self l,
  name (with_collections self l ms) = name self.
Proof. induction ms as [|m ms IH]; intros; simpl; [done | by rewrite IH]. Qed.

Lemma with_collections_tasks ms : forall self l,
  tasks (with_collections self l ms) = tasks self.
Proof. induction ms as [|m ms IH]; intros; simpl; [done | by rewrite IH]. Qed.

(** Every sub-collection sits under the transformed name of its module. *)
Lemma with_collections_lookup_key ms : forall self l k c,
  collections (with_collections self l ms) !! k = Some c ->
  collections self !! k = Some c \/
  exists i m, ms !! i = Some m /\ k = transform (mod_name m) /\
              c = sub_collection (l + i) m.
Proof.
  induction ms as [|m ms IH]; intros self l k c H; simpl in H; [by left|].
  apply IH in H as [H|(i & m' & Hi & -> & ->)].
  - simpl in H. apply lookup_insert_Some in H as [[<- <-]|[_ H]]; [|by left].
    right. exists 0, m. rewrite Nat.add_0_r, transform_idempotent. done.
  - right. exists (S i), m'. split; [done|]. split; [done|]. f_equal. lia.
Qed.

Lemma with_collections_lookup_other ms : forall self l k,
  k ∉ (fun m => transform (mod_name m)) <$> ms ->
  collections (with_collections self l ms) !! k = collections self !! k.
Proof.
  induction ms as [|m ms IH]; intros self l k Hk; simpl; [done|].
  rewrite fmap_cons, not_elem_of_cons in Hk. destruct Hk as [Hne Hk].
  rewrite IH by done. simpl. rewrite transform_idempotent.
  by rewrite lookup_insert_ne.
Qed.

(** With distinct names no addition replaces an earlier one. *)
Lemma with_collections_lookup_at ms : forall self l i m,
  NoDup ((fun m => transform (mod_name m)) <$> ms) ->
  ms !! i = Some m ->
  collections (with_collections self l ms) !! transform (mod_name m)
  = Some (sub_collection (l + i) m).
Proof.
  induction ms as [|m0 ms IH]; intros self l i m Hnd Hi; [done|].
  rewrite fmap_cons in Hnd. apply NoDup_cons in Hnd as [Hnot Hnd].
  destruct i as [|i]; simpl in Hi.
  - apply (inj Some) in Hi. subst m0. simpl.
    rewrite with_collections_lookup_other by done.
    simpl. rewrite transform_idempotent, Nat.add_0_r. by rewrite lookup_insert_eq.
  - simpl. rewrite (IH _ _ i m Hnd Hi). f_equal. f_equal. lia.
Qed.

Lemma collection_keys_distinct w :
  NoDup ((fun m => transform (mod_name m)) <$> map (module_in w) task_modules).
Proof.
  change (NoDup (transform <$> task_modules)).
  apply (bool_decide_unpack _). vm_compute. exact I.
Qed.

Lemma final_collection lib w u s ns i nm :
  g_ns (final_state lib w u s) = Some ns ->
  task_modules !! i = Some nm ->
  collections ns !! transform nm
  = Some (sub_collection (length (heap s) + 2 + i) (module_in w nm)).
Proof.
  unfold final_state, after_additions. cbn [g_ns]. intros H Hi.
  apply (inj Some) in H. subst ns.
  apply (with_collections_lookup_at _ _ _ i (module_in w nm));
    [apply collection_keys_distinct|].
  by rewrite lookup_map, Hi.
Qed.

Lemma collection_under_key lib w u names s ns k c :
  g_ns (after_additions lib w u names s) = Some ns ->
  collections ns !! k = Some c ->
  exists i nm, names !! i = Some nm /\ k = transform nm /\
               c = sub_collection (length (heap s) + 2 + i) (module_in w nm).
Proof.
  unfold after_additions. cbn [g_ns]. intros H Hc.
  apply (inj Some) in H. subst ns.
  apply with_collections_lookup_key in Hc as [Hc|(i & m & Hi & -> & ->)].
  - cbn [collections] in Hc. by rewrite lookup_empty in Hc.
  - exists i. rewrite lookup_map in Hi.
    destruct (names !! i) as [nm'|]; [|discriminate].
    exists nm'. simpl in Hi. apply (inj Some) in Hi. subst m. done.
Qed.

(** ** The lexicon of a module's tasks *)

Lemma task_lexicon_lookup ts : forall lex k t,
  task_lexicon lex ts !! k = Some t ->
  lex !! k = Some t \/ (t ∈ ts /\ k = transform (task_name t)).
Proof.
  induction ts as [|t0 ts IH]; intros lex k t H; simpl in H; [by left|].
  apply IH in H as [H|[Hin ->]].
  - apply lookup_insert_Some in H as [[<- <-]|[_ H]]; [|by left].
    right. split; [apply list_elem_of_here | done].
  - right. split; [by apply list_elem_of_further | done].
Qed.

Lemma task_lexicon_other ts : forall lex k,
  k ∉ (fun t => transform (task_name t)) <$> ts ->
  task_lexicon lex ts !! k = lex !! k.
Proof.
  induction ts as [|t0 ts IH]; intros lex k Hk; simpl; [done|].
  rewrite fmap_cons, not_elem_of_cons in Hk. destruct Hk as [Hne Hk].
  rewrite IH by done. by rewrite lookup_insert_ne.
Qed.

Lemma task_lexicon_keeps ts : forall lex k,
  is_Some (lex !! k) -> is_Some (task_lexicon lex ts !! k).
Proof.
  induction ts as [|t0 ts IH]; intros lex k H; simpl; [done|].
  apply IH. destruct (decide (transform (task_name t0) = k)) as [<-|Hne].
  - rewrite lookup_insert_eq. eauto.
  - by rewrite lookup_insert_ne.
Qed.

Lemma task_lexicon_registers ts : forall lex t,
  t ∈ ts -> is_Some (task_lexicon lex ts !! transform (task_name t)).
Proof.
  induction ts as [|t0 ts IH]; intros lex t Hin; [by apply elem_of_nil in Hin|].
  apply elem_of_cons in Hin as [->|Hin]; simpl.
  - apply task_lexicon_keeps. rewrite lookup_insert_eq. eauto.
  - by apply IH.
Qed.

(** The task a name ends up bound to is the last one of that name. *)
Lemma task_lexicon_last ts1 t ts2 lex :
  transform (task_name t) ∉ (fun t => transform (task_name t)) <$> ts2 ->
  task_lexicon lex (ts1 ++ t :: ts2) !! transform (task_name t) = Some t.
Proof.
  intros Hlast. unfold task_lexicon. rewrite foldl_app. simpl.
  fold (task_lexicon (<[transform (task_name t) := t]>
                        (foldl (fun acc t => <[transform (task_name t) := t]> acc)
                               lex ts1)) ts2).
  rewrite task_lexicon_other by done. by rewrite lookup_insert_eq.
Qed.

Lemma task_lexicon_exact ts : forall lex t,
  NoDup ((fun t => transform (task_name t)) <$> ts) ->
  t ∈ ts -> task_lexicon lex ts !! transform (task_name t) = Some t.
Proof.
  induction ts as [|t0 ts IH]; intros lex t Hnd Hin; [by apply elem_of_nil in Hin|].
  rewrite fmap_cons in Hnd. apply NoDup_cons in Hnd as [Hnot Hnd].
  apply elem_of_cons in Hin as [->|Hin]; simpl.
  - rewrite task_lexicon_other by done. by rewrite lookup_insert_eq.
  - by apply IH.
Qed.

Lemma task_lexicon_size ts : forall lex,
  NoDup ((fun t => transform (task_name t)) <$> ts) ->
  (forall t, t ∈ ts -> lex !! transform (task_name t) = None) ->
  size (task_lexicon lex ts) = size lex + length ts.
Proof.
  induction ts as [|t0 ts IH]; intros lex Hnd Hfresh; simpl; [lia|].
  rewrite fmap_cons in Hnd. apply NoDup_cons in Hnd as [Hnot Hnd].
  rewrite IH; [|done|].
  - rewrite map_size_insert_None; [lia|]. apply Hfresh, list_elem_of_here.
  - intros t Hin. rewrite lookup_insert_ne.
    + apply Hfresh. by apply list_elem_of_further.
    + intros E. apply Hnot. rewrite E. apply list_elem_of_fmap. by exists t.
Qed.


(** ** The collection of a task module *)

(** After a construction that completes, the namespace holds under the
    transformed name of each task module the collection [from_module]
    makes of it. *)
Lemma collection_of_module lib w s nm :
  construct lib w = Ok tt s -> nm ∈ task_modules ->
  exists ns ts l,
    g_ns s = Some ns /\ load_task_module w nm = Loaded ts /\
    collections ns !! transform nm
    = Some {| name := Some (transform nm); tasks := task_lexicon ∅ ts;
              collections := ∅; _configuration := l |}.
Proof.
  intros H Hin. unfold construct in H.
  apply construct_from_inv in H as (u & _ & ((_ & _ & Hm & _) & _) & ->).
  destruct (Hm nm Hin) as [ts Hts].
  apply list_elem_of_lookup in Hin as [i Hi].
  destruct (g_ns (final_state lib w u initial_state)) as [ns|] eqn:Hns;
    [|discriminate].
  exists ns, ts, (length (heap initial_state) + 2 + i).
  split; [reflexivity|]. split; [exact Hts|].
  rewrite (final_collection lib w u initial_state ns i nm Hns Hi).
  unfold sub_collection, module_in, tasks_in. cbn [mod_name mod_tasks].
  by rewrite Hts.
Qed.


(** ** The states the module passes through *)

(** The first [9 + j] statements are the imports, the setup and the first
    [j] additions. *)
Lemma program_prefix lib w j :
  take (9 + j) (program lib w)
  = imports lib w ++ setup lib w ++ additions (take j task_modules).
Proof.
  do 8 (destruct j as [|j]; [reflexivity|]).
  reflexivity.
Qed.

(** After the ninth statement every state is an [after_additions]. *)
Lemma state_after_setup lib w j s :
  run (take (9 + j) (program lib w)) initial_state = Ok tt s ->
  exists u, load_u_utils w = Loaded u /\ settings_fit lib w /\
            s = after_additions lib w u (take j task_modules) initial_state.
Proof.
  rewrite program_prefix. intros H.
  destruct (imports_cases lib w initial_state)
    as [(x & u & Hx & Hu & Hm & Ha & E)|(e & s' & E & _)].
  - destruct (setup_cases lib w u (after_imports w u initial_state))
      as [[Hfit _]|(_ & e & s' & Er & _)]; [reflexivity | reflexivity | |].
    + exists u. split; [done|]. split; [done|].
      rewrite (prefix_ok lib w _ u _ E Hfit (subseteq_take j task_modules)) in H.
      congruence.
    + rewrite run_app, E, run_app, Er in H. discriminate.
  - rewrite run_app, E in H. discriminate.
Qed.

Lemma no_collections_keeps (c : M unit) : keeps_ns c -> adds_no_collection c.
Proof. intros Hc s s' H Hn ns Hns. apply Hn. by rewrite <- (Hc s s' H). Qed.

Lemma import_invoke_keeps_ns lib : keeps_ns (import_invoke lib).
Proof.
  intros s s'. unfold import_invoke, modify, raise.
  destruct (load_invoke lib); intros [= <-]. reflexivity.
Qed.

Lemma import_u_utils_keeps_ns w : keeps_ns (import_u_utils w).
Proof.
  intros s s'. unfold import_u_utils, modify, raise.
  destruct (load_u_utils w); intros [= <-]. reflexivity.
Qed.

Lemma import_submodules_keeps_ns w names : keeps_ns (import_submodules w names).
Proof.
  induction names as [|nm names IH]; intros s s'.
  - intros [= <-]. reflexivity.
  - simpl. unfold bind, import_task_module, modify, raise, ret.
    destruct (absent w nm).
    + apply IH.
    + destruct (load_task_module w nm); [|discriminate].
      intros H. by rewrite (IH _ _ H).
Qed.

Lemma import_names_keeps_ns w names : keeps_ns (import_names w names).
Proof.
  induction names as [|nm names IH]; intros s s'.
  - intros [= <-]. reflexivity.
  - simpl. unfold bind, import_from, raise, ret.
    destruct (absent w nm); [discriminate | apply IH].
Qed.

Lemma import_task_modules_keeps_ns w names : keeps_ns (import_task_modules w names).
Proof.
  intros s s'. unfold import_task_modules, bind.
  destruct (import_submodules w names s) as [[] s1|] eqn:E; [|discriminate].
  intros H. rewrite (import_names_keeps_ns _ _ _ _ H).
  by apply (import_submodules_keeps_ns w names).
Qed.

Lemma new_ns_adds_no_collection : adds_no_collection new_ns.
Proof.
  intros s s'. unfold new_ns, invoke_class, bind, gets.
  destruct (g_invoke s); [|discriminate]. simpl.
  intros [= <-] _ ns [= <-]. reflexivity.
Qed.

Lemma new_cfg_keeps_ns lib w : keeps_ns (new_cfg lib w).
Proof.
  intros s s'. unfold new_cfg, invoke_class, Config_init, bind, gets.
  destruct (g_invoke s); [|discriminate]. simpl.
  destruct (Config_start lib w); [discriminate|]. simpl.
  intros [= <-]. reflexivity.
Qed.

Lemma assign_item_keeps_ns key rhs :
  (forall s v s', rhs s = Ok v s' -> s' = s) ->
  keeps_ns (assign_item key rhs).
Proof.
  intros Hr s s'. unfold assign_item, bind.
  destruct (rhs s) as [v s1|] eqn:E; [|discriminate].
  apply Hr in E as ->.
  unfold global, bind, gets. destruct (g_cfg s); [|discriminate]. simpl.
  unfold Config_setitem, deref, bind, gets. destruct (heap s !! l); [|discriminate].
  simpl. destruct (g !! key) as [[]|]; try discriminate; intros [= <-]; reflexivity.
Qed.

Lemma ubxlib_dir_pure s v s' : ubxlib_dir s = Ok v s' -> s' = s.
Proof.
  unfold ubxlib_dir, global, bind, gets.
  destruct (g_u_utils s); [|discriminate]. simpl. by intros [= _ <-].
Qed.

Lemma automation_dir_pure s v s' : automation_dir s = Ok v s' -> s' = s.
Proof.
  unfold automation_dir, global, bind, gets.
  destruct (g_u_utils s); [|discriminate]. simpl. by intros [= _ <-].
Qed.

Lemma vscode_dir_pure s v s' :
  (d <- ubxlib_dir ;; ret (d +:+ "/.vscode")) s = Ok v s' -> s' = s.
Proof.
  unfold bind. destruct (ubxlib_dir s) as [d s1|] eqn:E; [|discriminate].
  apply ubxlib_dir_pure in E as ->. by intros [= _ <-].
Qed.

Lemma ns_configure_keeps_ns : keeps_ns ns_configure.
Proof.
  intros s s'. unfold ns_configure, global, bind, gets.
  destruct (g_ns s) as [ns|] eqn:Ens; [|discriminate]. simpl.
  destruct (g_cfg s) as [l|]; [|discriminate]. simpl.
  unfold configure, deref, bind, gets.
  destruct (heap s !! l); [|discriminate]. simpl.
  destruct (heap s !! _configuration ns); [|discriminate]. simpl.
  destruct (merge_dicts _ _); [|discriminate].
  intros [= <-]. exact Ens.
Qed.

(** None of the first nine statements gives the namespace a
    sub-collection. *)
Lemma first_nine_add_no_collection lib w :
  Forall adds_no_collection (imports lib w ++ setup lib w).
Proof.
  unfold imports, setup. cbn [app].
  repeat apply Forall_cons_2; try apply Forall_nil_2.
  - apply no_collections_keeps, import_invoke_keeps_ns.
  - apply no_collections_keeps, import_u_utils_keeps_ns.
  - apply no_collections_keeps, import_task_modules_keeps_ns.
  - apply new_ns_adds_no_collection.
  - apply no_collections_keeps, new_cfg_keeps_ns.
  - apply no_collections_keeps, assign_item_keeps_ns, ubxlib_dir_pure.
  - apply no_collections_keeps, assign_item_keeps_ns, vscode_dir_pure.
  - apply no_collections_keeps, assign_item_keeps_ns, automation_dir_pure.
  - apply no_collections_keeps, ns_configure_keeps_ns.
Qed.

Lemma run_adds_no_collection p :
  Forall adds_no_collection p ->
  forall s s', run p s = Ok tt s' -> no_collections s -> no_collections s'.
Proof.
  induction 1 as [|c p Hc _ IH]; intros s s'.
  - by intros [= <-].
  - rewrite run_cons_eq. destruct (c s) as [[] s1|] eqn:E; [|discriminate].
    intros H Hn. eapply IH; [exact H|]. by eapply Hc.
Qed.

Lemma no_collections_initially : no_collections initial_state.
Proof. intros ns [=]. Qed.

Lemma configured_after lib w u names s :
  configured (after_additions lib w u names s).
Proof.
  exists (cfg_entries lib w u), (cfg_entries lib w u).
  split; [apply cfg_dict_after|]. split; [apply ns_dict_after|].
  split; apply has_keys_cfg_entries.
Qed.


Lemma raised_import_fails lib w e : raised_by_import lib w e -> import_fails lib w.
Proof.
  intros [H|[H|[(nm & Hin & Ha & H)|(nm & Hin & Ha & H)]]];
    [left | right; left | right; right | right; right]; eauto 6.
Qed.


(** ** What the statements read *)










(** * The properties of the specification *)

(** ** C1: the collections of the namespace *)





(** ** C2, C4, C7: the entries of the configuration *)

Lemma sample_construct :
  construct sample_lib sample_world
  = Ok tt (final_state sample_lib sample_world sample_u_utils initial_state).
Proof. vm_compute. reflexivity. Qed.

(** C2.  After a construction that completes, [cfg] holds under
    ['vscode_dir'] the string it holds under ['root_dir'] followed by
    ['/.vscode']; the namespace's own configuration holds the same
    entries. *)
Theorem vscode_dir_extends_root_dir lib w s :
  construct lib w = Ok tt s ->
  exists d root,
    cfg_dict s = Some d /\ ns_dict s = Some d /\
    d !! "root_dir" = Some (VStr root) /\
    d !! "vscode_dir" = Some (VStr (root +:+ "/.vscode")).
Proof.
  intros H. apply construct_from_inv in H as (u & _ & _ & ->).
  exists (cfg_entries lib w u), (UBXLIB_DIR u).
  split; [apply cfg_dict_after|]. split; [apply ns_dict_after|].
  unfold cfg_entries. by simplify_map_eq.
Qed.

Lemma vscode_dir_extends_root_dir_witness :
  exists d root,
    cfg_dict (final_state sample_lib sample_world sample_u_utils initial_state)
      = Some d /\
    ns_dict (final_state sample_lib sample_world sample_u_utils initial_state)
      = Some d /\
    d !! "root_dir" = Some (VStr root) /\
    d !! "vscode_dir" = Some (VStr (root +:+ "/.vscode")).
Proof.
  apply (vscode_dir_extends_root_dir sample_lib sample_world).
  vm_compute. reflexivity.
Defined.

Lemma append_nonempty (a b : string) : b <> "" -> a +:+ b <> "".
Proof. destruct a; simpl; [done | discriminate]. Qed.

(** C4, as the code has it.  After a construction that completes, [cfg]
    holds the keys ['root_dir'], ['vscode_dir'] and ['cfg_dir'], each
    bound to a string.  The string under ['vscode_dir'] is never empty;
    those under ['root_dir'] and ['cfg_dir'] are the two paths of
    [u_utils] and are empty exactly when these are. *)
Theorem required_keys_hold_strings lib w s :
  construct lib w = Ok tt s ->
  exists d u,
    cfg_dict s = Some d /\ load_u_utils w = Loaded u /\
    (forall k, k ∈ required_keys -> exists v, d !! k = Some (VStr v)) /\
    (exists v, d !! "vscode_dir" = Some (VStr v) /\ v <> "") /\
    (forall v, d !! "root_dir" = Some (VStr v) -> (v = "" <-> UBXLIB_DIR u = "")) /\
    (forall v, d !! "cfg_dir" = Some (VStr v) -> (v = "" <-> AUTOMATION_DIR u = "")).
Proof.
  intros H. apply construct_from_inv in H as (u & Hu & _ & ->).
  exists (cfg_entries lib w u), u.
  split; [apply cfg_dict_after|]. split; [exact Hu|].
  unfold cfg_entries. split; [|split; [|split]].
  - intros k Hk. unfold required_keys in Hk.
    repeat (apply elem_of_cons in Hk as [->|Hk]); [| | |by apply elem_of_nil in Hk];
      eexists; by simplify_map_eq.
  - eexists. split; [by simplify_map_eq|]. by apply append_nonempty.
  - intros v Hv. simplify_map_eq. done.
  - intros v Hv. simplify_map_eq. done.
Qed.

Lemma required_keys_hold_strings_witness :
  exists d u,
    cfg_dict (final_state sample_lib sample_world sample_u_utils initial_state)
      = Some d /\
    load_u_utils sample_world = Loaded u /\
    (forall k, k ∈ required_keys -> exists v, d !! k = Some (VStr v)) /\
    (exists v, d !! "vscode_dir" = Some (VStr v) /\ v <> "") /\
    (forall v, d !! "root_dir" = Some (VStr v) -> (v = "" <-> UBXLIB_DIR u = "")) /\
    (forall v, d !! "cfg_dir" = Some (VStr v) -> (v = "" <-> AUTOMATION_DIR u = "")).
Proof.
  apply (required_keys_hold_strings sample_lib sample_world).
  vm_compute. reflexivity.
Defined.

(** C4 as stated fails.  Where [u_utils] resolves its two directories to
    the empty string the construction completes, and [cfg] holds the
    empty string under ['root_dir'] and under ['cfg_dir']. *)
Lemma empty_paths_give_empty_strings :
  exists s,
    construct sample_lib empty_paths_world = Ok tt s /\
    entry (cfg_dict s) "root_dir" = Some (VStr "") /\
    entry (cfg_dict s) "vscode_dir" = Some (VStr "/.vscode") /\
    entry (cfg_dict s) "cfg_dir" = Some (VStr "").
Proof.
  eexists. split; [vm_compute; reflexivity|].
  repeat split; vm_compute; reflexivity.
Qed.

(** C7.  After a construction that completes, ['root_dir'] is bound to
    [u_utils.UBXLIB_DIR] and ['cfg_dir'] to [u_utils.AUTOMATION_DIR],
    unchanged, in [cfg] and in the namespace's configuration. *)
Theorem paths_come_from_u_utils lib w s u :
  construct lib w = Ok tt s ->
  load_u_utils w = Loaded u ->
  exists d,
    cfg_dict s = Some d /\ ns_dict s = Some d /\
    d !! "root_dir" = Some (VStr (UBXLIB_DIR u)) /\
    d !! "cfg_dir" = Some (VStr (AUTOMATION_DIR u)).
Proof.
  intros H Hu. apply construct_from_inv in H as (u' & Hu' & _ & ->).
  assert (u' = u) as -> by congruence.
  exists (cfg_entries lib w u).
  split; [apply cfg_dict_after|]. split; [apply ns_dict_after|].
  unfold cfg_entries. by simplify_map_eq.
Qed.

Lemma paths_come_from_u_utils_witness :
  exists d,
    cfg_dict (final_state sample_lib sample_world sample_u_utils initial_state)
      = Some d /\
    ns_dict (final_state sample_lib sample_world sample_u_utils initial_state)
      = Some d /\
    d !! "root_dir" = Some (VStr "/ubxlib") /\
    d !! "cfg_dir" = Some (VStr "/ubxlib/port/platform/common/automation").
Proof.
  apply (paths_come_from_u_utils sample_lib sample_world _ sample_u_utils).
  - vm_compute. reflexivity.
  - reflexivity.
Defined.

(** ** C5: running the construction again *)

(** C5.  Executing the module body a second time, in the state the first
    execution left, completes as well and builds the same contents: the
    same collections with the same tasks and configurations, and the same
    entries in [cfg] (in new objects). *)
Theorem construction_is_idempotent lib w s1 :
  construct lib w = Ok tt s1 ->
  exists s2, construct_from lib w s1 = Ok tt s2 /\ contents s2 = contents s1.
Proof.
  intros H. apply construct_from_inv in H as (u & Hu & Hv & ->).
  exists (final_state lib w u (final_state lib w u initial_state)).
  split; [by apply construct_from_ok|].
  reflexivity.
Qed.

Lemma construction_is_idempotent_witness :
  exists s2,
    construct_from sample_lib sample_world
      (final_state sample_lib sample_world sample_u_utils initial_state)
    = Ok tt s2 /\
    contents s2
    = contents (final_state sample_lib sample_world sample_u_utils initial_state).
Proof.
  apply (construction_is_idempotent sample_lib sample_world).
  vm_compute. reflexivity.
Defined.

(** The second execution does allocate: the two states differ, only their
    contents agree. *)
Lemma second_run_uses_new_objects :
  g_cfg (final_state sample_lib sample_world sample_u_utils
           (final_state sample_lib sample_world sample_u_utils initial_state))
  <> g_cfg (final_state sample_lib sample_world sample_u_utils initial_state).
Proof. vm_compute. discriminate. Qed.

(** ** C9: what the result depends on *)



(** The two sample environments do differ outside the repository and the
    settings. *)
Lemma sample_worlds_differ :
  environ sample_world <> environ other_world /\
  files sample_world <> files other_world.
Proof.
  split; intros H.
  - apply (f_equal (fun m => m !! "UBXLIB_FEATURES")) in H.
    vm_compute in H. discriminate.
  - apply (f_equal (fun m => m !! "/etc/hosts")) in H.
    vm_compute in H. discriminate.
Qed.


(** ** C3: failing imports *)




(** The exception that reaches the caller is the one [u_utils] raised. *)
Lemma broken_world_outcome :
  construct sample_lib broken_world
  = Raise (PathError "cannot locate the ubxlib root") (set_invoke initial_state).
Proof. reflexivity. Qed.

(** A failure after the imports: with a table under [cfg_dir] in
    [/etc/invoke.yaml] the third assignment raises.  The namespace is
    bound and bare; [cfg] is bound and holds the first two keys only. *)
Lemma clashing_world_outcome :
  exists s ns,
    construct sample_lib clashing_world = Raise AmbiguousMergeError s /\
    g_ns s = Some ns /\ collections ns = ∅ /\
    heap s !! _configuration ns = Some ∅ /\
    entry (cfg_dict s) "root_dir" = Some (VStr "/ubxlib") /\
    entry (cfg_dict s) "vscode_dir" = Some (VStr "/ubxlib/.vscode") /\
    entry (cfg_dict s) "cfg_dir" = Some (VDict [("path", VStr "/srv")]).
Proof.
  eexists _, _. split; [vm_compute; reflexivity|].
  split; [reflexivity|]. repeat split; vm_compute; reflexivity.
Qed.

(** ** C10: what the construction leaves alone *)

(** C10.  A construction that completes, started from any globals and
    store, leaves [u_utils] and the seven task modules bound to exactly
    what the imports loaded, leaves every other module binding as it was,
    and changes no dictionary that existed before. *)
Theorem construction_frame lib w s0 s :
  construct_from lib w s0 = Ok tt s ->
  (exists u, load_u_utils w = Loaded u /\ g_u_utils s = Some u) /\
  (forall nm, nm ∈ task_modules ->
     exists ts, load_task_module w nm = Loaded ts /\
                g_modules s !! nm = Some {| mod_name := nm; mod_tasks := ts |}) /\
  (forall nm, nm ∉ task_modules -> g_modules s !! nm = g_modules s0 !! nm) /\
  (forall l d, heap s0 !! l = Some d -> heap s !! l = Some d).
Proof.
  intros H. apply construct_from_inv in H as (u & Hu & ((_ & _ & Hm & _) & _) & ->).
  split; [by exists u|]. split; [|split].
  - intros nm Hin. destruct (Hm nm Hin) as [ts Hts]. exists ts. split; [done|].
    assert (module_in w nm = {| mod_name := nm; mod_tasks := ts |}) as <-
      by (unfold module_in, tasks_in; by rewrite Hts).
    unfold task_modules in Hin. simpl.
    repeat (apply elem_of_cons in Hin as [->|Hin]);
      [by simplify_map_eq .. | by apply elem_of_nil in Hin].
  - intros nm Hnm. unfold task_modules in Hnm. simpl.
    rewrite !not_elem_of_cons in Hnm.
    destruct Hnm as (? & ? & ? & ? & ? & ? & ? & _).
    by rewrite !lookup_insert_ne by done.
  - intros l d Hl. simpl. by apply lookup_app_l_Some.
Qed.

Lemma construction_frame_witness :
  (exists u, load_u_utils sample_world = Loaded u /\
             g_u_utils (final_state sample_lib sample_world sample_u_utils sample_final)
             = Some u) /\
  (forall nm, nm ∈ task_modules ->
     exists ts, load_task_module sample_world nm = Loaded ts /\
                g_modules (final_state sample_lib sample_world sample_u_utils sample_final)
                  !! nm = Some {| mod_name := nm; mod_tasks := ts |}) /\
  (forall nm, nm ∉ task_modules ->
     g_modules (final_state sample_lib sample_world sample_u_utils sample_final) !! nm
     = g_modules sample_final !! nm) /\
  (forall l d, heap sample_final !! l = Some d ->
     heap (final_state sample_lib sample_world sample_u_utils sample_final) !! l
     = Some d).
Proof.
  apply (construction_frame sample_lib sample_world sample_final).
  vm_compute. reflexivity.
Defined.

(** ** C8: the configuration comes first *)

(** C8.  In every state the module body passes through: up to and
    including the ninth statement ([ns.configure(cfg)]) the namespace has
    no sub-collection, and from the ninth statement on (so whenever one of
    the seven [add_collection] calls runs) [cfg] and the namespace's
    configuration both hold all three keys. *)
Theorem configuration_precedes_collections lib w k s :
  run (take k (program lib w)) initial_state = Ok tt s ->
  (k <= 9 -> no_collections s) /\ (9 <= k -> configured s).
Proof.
  intros H. split; intros Hk.
  - rewrite program_phases, app_assoc, take_app_le in H
      by (rewrite length_app; simpl; lia).
    eapply run_adds_no_collection; [|exact H|apply no_collections_initially].
    apply Forall_take, first_nine_add_no_collection.
  - replace k with (9 + (k - 9)) in H by lia.
    apply state_after_setup in H as (u & _ & _ & ->). apply configured_after.
Qed.

Lemma configuration_precedes_collections_witness :
  (12 <= 9 ->
   no_collections (after_additions sample_lib sample_world sample_u_utils
                     (take 3 task_modules) initial_state)) /\
  (9 <= 12 ->
   configured (after_additions sample_lib sample_world sample_u_utils
                 (take 3 task_modules) initial_state)).
Proof.
  apply (configuration_precedes_collections sample_lib sample_world 12).
  vm_compute. reflexivity.
Defined.

(** ** C6: stability and sharing of the configuration *)

(** C6, as the code has it.  From [ns.configure(cfg)] on, in every state
    the module body passes through, [cfg] and the namespace's own
    configuration hold the same fixed entries (the three assignments over
    what [Config()] started with, [started lib w]): no later statement of
    the module changes them.  The namespace keeps them in a dictionary of its own,
    distinct from [cfg], and every sub-collection has yet another
    dictionary, which is empty. *)
Theorem configuration_is_stable_and_copied lib w k s :
  9 <= k ->
  run (take k (program lib w)) initial_state = Ok tt s ->
  exists u ns l,
    load_u_utils w = Loaded u /\ Config_start lib w = inr (started lib w) /\
    g_ns s = Some ns /\ g_cfg s = Some l /\
    heap s !! l = Some (cfg_entries lib w u) /\
    heap s !! _configuration ns = Some (cfg_entries lib w u) /\
    _configuration ns <> l /\
    forall nm c, collections ns !! nm = Some c ->
      _configuration c <> l /\ _configuration c <> _configuration ns /\
      heap s !! _configuration c = Some ∅.
Proof.
  intros Hk H. replace k with (9 + (k - 9)) in H by lia.
  apply state_after_setup in H as (u & Hu & Hfit & ->).
  apply settings_fit_started in Hfit as [Hd _].
  set (names := take (k - 9) task_modules).
  pose proof (cfg_dict_after lib w u names initial_state) as Hc.
  pose proof (ns_dict_after lib w u names initial_state) as Hn.
  unfold cfg_dict, ns_dict in Hc, Hn.
  destruct (g_ns (after_additions lib w u names initial_state)) as [ns|] eqn:Hns;
    [|discriminate].
  assert (Hl : _configuration ns = 0).
  { unfold after_additions in Hns. cbn [g_ns] in Hns.
    apply (inj Some) in Hns. subst ns. apply with_collections_configuration. }
  exists u, ns, 1. split; [done|]. split; [exact Hd|].
  split; [done|]. split; [reflexivity|].
  split; [exact Hc|]. split; [exact Hn|]. split; [lia|].
  intros nm c Hlook.
  destruct (sub_collections_after lib w u names _ ns nm c Hns Hlook)
    as (i & nm' & Hi & ->).
  cbn [_configuration sub_collection heap initial_state length].
  split; [lia|]. split; [lia|].
  unfold after_additions. cbn [heap initial_state app length Nat.add].
  apply lookup_lt_Some in Hi. simpl.
  by apply lookup_replicate_2.
Qed.

Lemma configuration_is_stable_and_copied_witness :
  exists u ns l,
    load_u_utils sample_world = Loaded u /\
    Config_start sample_lib sample_world = inr (started sample_lib sample_world) /\
    g_ns sample_final = Some ns /\ g_cfg sample_final = Some l /\
    heap sample_final !! l = Some (cfg_entries sample_lib sample_world u) /\
    heap sample_final !! _configuration ns
    = Some (cfg_entries sample_lib sample_world u) /\
    _configuration ns <> l /\
    forall nm c, collections ns !! nm = Some c ->
      _configuration c <> l /\ _configuration c <> _configuration ns /\
      heap sample_final !! _configuration c = Some ∅.
Proof.
  apply (configuration_is_stable_and_copied sample_lib sample_world 16).
  - lia.
  - vm_compute. reflexivity.
Defined.

(** C6 as stated fails.  After the construction in the sample environment
    the [linux] sub-collection does not share [cfg]: its configuration is
    another, empty, dictionary; neither does the namespace, which holds a
    copy: a later assignment to [cfg] does not show in the namespace. *)
Lemma cfg_is_copied_not_shared :
  construct sample_lib sample_world = Ok tt sample_final /\
  (exists ns c,
     g_ns sample_final = Some ns /\ collections ns !! "linux" = Some c /\
     ~ shares_cfg sample_final c /\ ~ shares_cfg sample_final ns /\
     entry (heap sample_final !! _configuration c) "root_dir" = None) /\
  (exists s',
     assign_item "root_dir" (ret "/elsewhere") sample_final = Ok tt s' /\
     entry (cfg_dict s') "root_dir" = Some (VStr "/elsewhere") /\
     entry (ns_dict s') "root_dir" = Some (VStr "/ubxlib")).
Proof.
  split; [exact sample_construct|]. split.
  - destruct (g_ns sample_final) as [ns|] eqn:Hns; [|discriminate].
    destruct (collections ns !! "linux") as [c|] eqn:Hc.
    2:{ apply (inj Some) in Hns. subst ns. vm_compute in Hc. discriminate. }
    exists ns, c. split; [reflexivity|]. split; [exact Hc|].
    apply (inj Some) in Hns. subst ns.
    vm_compute in Hc. apply (inj Some) in Hc. subst c.
    split; [|split].
    + vm_compute. discriminate.
    + vm_compute. discriminate.
    + vm_compute. reflexivity.
  - eexists. split; [vm_compute; reflexivity|].
    split; vm_compute; reflexivity.
Qed.

(** * Further properties of the module *)

(** ** The tasks of the collections *)

(** X1.  After a construction that completes, the root namespace has no
    name and no task of its own: every task is reached through one of the
    sub-collections. *)
Theorem root_namespace_is_anonymous_and_holds_no_task lib w s :
  construct lib w = Ok tt s ->
  exists ns, g_ns s = Some ns /\ name ns = None /\ tasks ns = ∅.
Proof.
  intros H. unfold construct in H.
  apply construct_from_inv in H as (u & _ & _ & ->).
  eexists. split; [reflexivity|].
  split; [apply with_collections_name | apply with_collections_tasks].
Qed.

Lemma root_namespace_is_anonymous_and_holds_no_task_witness :
  exists ns, g_ns sample_final = Some ns /\ name ns = None /\ tasks ns = ∅.
Proof.
  apply (root_namespace_is_anonymous_and_holds_no_task sample_lib sample_world).
  vm_compute. reflexivity.
Defined.

(** X2.  After a construction that completes, the collection filed under
    the transformed name of a task module holds the tasks of that module
    and nothing else: every task of the module has an entry under its
    transformed name, and every entry is a task of the module under that
    task's transformed name. *)
Theorem module_tasks_are_registered lib w s nm :
  construct lib w = Ok tt s ->
  nm ∈ task_modules ->
  exists ns c ts,
    g_ns s = Some ns /\ collections ns !! transform nm = Some c /\
    load_task_module w nm = Loaded ts /\
    (forall t, t ∈ ts -> is_Some (tasks c !! task_key t)) /\
    (forall k t, tasks c !! k = Some t -> t ∈ ts /\ k = task_key t).
Proof.
  intros H Hin.
  destruct (collection_of_module lib w s nm H Hin) as (ns & ts & l & Hns & Hts & Hc).
  eexists ns, _, ts. split; [done|]. split; [exact Hc|]. split; [done|].
  cbn [tasks]. split.
  - intros t Ht. by apply task_lexicon_registers.
  - intros k t Hk. apply task_lexicon_lookup in Hk as [Hk|Hk]; [|done].
    by rewrite lookup_empty in Hk.
Qed.

Lemma module_tasks_are_registered_witness :
  exists ns c ts,
    g_ns sample_final = Some ns /\
    collections ns !! transform "esp_idf" = Some c /\
    load_task_module sample_world "esp_idf" = Loaded ts /\
    (forall t, t ∈ ts -> is_Some (tasks c !! task_key t)) /\
    (forall k t, tasks c !! k = Some t -> t ∈ ts /\ k = task_key t).
Proof.
  apply (module_tasks_are_registered sample_lib sample_world sample_final "esp_idf").
  - vm_compute. reflexivity.
  - unfold task_modules. rewrite !elem_of_cons. tauto.
Defined.

(** X3.  When the tasks of a module have pairwise distinct transformed
    names, its collection binds each of these names to its own task and
    holds exactly as many entries as the module has tasks. *)
Theorem tasks_with_distinct_names_are_all_kept lib w s nm ts :
  construct lib w = Ok tt s ->
  nm ∈ task_modules ->
  load_task_module w nm = Loaded ts ->
  NoDup (task_key <$> ts) ->
  exists ns c,
    g_ns s = Some ns /\ collections ns !! transform nm = Some c /\
    (forall t, t ∈ ts -> tasks c !! task_key t = Some t) /\
    size (tasks c) = length ts.
Proof.
  intros H Hin Hts Hnd.
  destruct (collection_of_module lib w s nm H Hin) as (ns & ts' & l & Hns & Hts' & Hc).
  assert (ts' = ts) as -> by congruence.
  eexists ns, _. split; [done|]. split; [exact Hc|]. cbn [tasks]. split.
  - intros t Ht. by apply task_lexicon_exact.
  - rewrite task_lexicon_size; [by rewrite map_size_empty | done |].
    intros t _. apply lookup_empty.
Qed.

Lemma tasks_with_distinct_names_are_all_kept_witness :
  exists ns c,
    g_ns sample_final = Some ns /\
    collections ns !! transform "esp_idf" = Some c /\
    (forall t, t ∈ sample_tasks -> tasks c !! task_key t = Some t) /\
    size (tasks c) = length sample_tasks.
Proof.
  apply (tasks_with_distinct_names_are_all_kept sample_lib sample_world
           sample_final "esp_idf").
  - vm_compute. reflexivity.
  - unfold task_modules. rewrite !elem_of_cons. tauto.
  - reflexivity.
  - apply (bool_decide_unpack _). vm_compute. exact I.
Defined.

(** X4.  When several tasks of a module share a transformed name, the
    collection binds that name to the last of them: a task that no later
    task of the module shares its transformed name with is the one found
    under it. *)
Theorem last_task_of_a_name_is_the_one_kept lib w s nm ts1 t ts2 :
  construct lib w = Ok tt s ->
  nm ∈ task_modules ->
  load_task_module w nm = Loaded (ts1 ++ t :: ts2) ->
  task_key t ∉ task_key <$> ts2 ->
  exists ns c,
    g_ns s = Some ns /\ collections ns !! transform nm = Some c /\
    tasks c !! task_key t = Some t.
Proof.
  intros H Hin Hts Hlast.
  destruct (collection_of_module lib w s nm H Hin) as (ns & ts' & l & Hns & Hts' & Hc).
  assert (ts' = ts1 ++ t :: ts2) as -> by congruence.
  eexists ns, _. split; [done|]. split; [exact Hc|]. cbn [tasks].
  by apply task_lexicon_last.
Qed.

Lemma last_task_of_a_name_is_the_one_kept_witness :
  exists ns c,
    g_ns (final_state sample_lib shadowing_world sample_u_utils initial_state)
    = Some ns /\
    collections ns !! transform "linux" = Some c /\
    tasks c !! task_key {| task_name := "flash-all" |}
    = Some {| task_name := "flash-all" |}.
Proof.
  apply (last_task_of_a_name_is_the_one_kept sample_lib shadowing_world _ "linux"
           [ {| task_name := "flash_all" |} ] {| task_name := "flash-all" |} []).
  - vm_compute. reflexivity.
  - unfold task_modules. rewrite !elem_of_cons. tauto.
  - reflexivity.
  - apply not_elem_of_nil.
Defined.

(** ** Settings the module does not assign *)

(** X5.  After a construction that completes, every setting other than
    the three the module assigns has, in [cfg] and in the namespace's
    configuration alike, the value [Config()] started with (and is absent
    where [Config()] had none): the defaults of the library with the
    system and user settings merged over them. *)
Theorem other_settings_keep_their_defaults lib w s key :
  construct lib w = Ok tt s ->
  key ∉ required_keys ->
  exists d,
    Config_start lib w = inr d /\
    entry (cfg_dict s) key = d !! key /\
    entry (ns_dict s) key = d !! key.
Proof.
  intros H Hkey. unfold construct in H.
  apply construct_from_inv in H as (u & _ & [_ Hfit] & ->).
  apply settings_fit_started in Hfit as [Hd _].
  exists (started lib w). split; [exact Hd|].
  unfold final_state. rewrite cfg_dict_after, ns_dict_after.
  unfold required_keys in Hkey. rewrite !not_elem_of_cons in Hkey.
  destruct Hkey as (? & ? & ? & _).
  cbn [entry]. unfold cfg_entries.
  by rewrite !lookup_insert_ne by done.
Qed.

Lemma other_settings_keep_their_defaults_witness :
  exists d,
    Config_start sample_lib tuned_world = inr d /\
    entry (cfg_dict (final_state sample_lib tuned_world sample_u_utils initial_state))
      "run" = d !! "run" /\
    entry (ns_dict (final_state sample_lib tuned_world sample_u_utils initial_state))
      "run" = d !! "run".
Proof.
  apply (other_settings_keep_their_defaults sample_lib tuned_world).
  - vm_compute. reflexivity.
  - unfold required_keys. rewrite !not_elem_of_cons.
    repeat split; [discriminate .. | apply not_elem_of_nil].
Defined.

(** ** Errors of the first two imports *)

(** X6.  The imports fail in the order of the statements.  If [invoke]
    cannot be imported, the module raises that error with nothing bound at
    all.  If [invoke] loads and [u_utils] fails, the module raises the
    error of [u_utils] whatever the task modules would do: only the
    [invoke] classes are bound, and no task module has been imported. *)
Theorem import_errors_surface_in_statement_order lib w :
  (forall e, load_invoke lib = Failed e ->
             construct lib w = Raise e initial_state) /\
  (forall x e, load_invoke lib = Loaded x -> load_u_utils w = Failed e ->
               construct lib w = Raise e (set_invoke initial_state)).
Proof.
  unfold construct, construct_from, program. split.
  - intros e He. apply run_cons_raise. unfold import_invoke. by rewrite He.
  - intros x e Hx He.
    rewrite (run_cons_ok _ _ _ _ (import_invoke_ok lib initial_state x Hx)).
    apply run_cons_raise. unfold import_u_utils. by rewrite He.
Qed.

Lemma import_errors_surface_in_statement_order_witness :
  construct sample_lib broken_world
  = Raise (PathError "cannot locate the ubxlib root") (set_invoke initial_state).
Proof.
  apply (proj2 (import_errors_surface_in_statement_order sample_lib broken_world) tt);
    reflexivity.
Defined.

(** ** The shape of the namespace *)

(** X7.  After a construction that completes, two sub-collections filed
    under different names never have the same configuration dictionary:
    configuring one of them later cannot show in another. *)
Theorem sub_collections_have_separate_dictionaries lib w s :
  construct lib w = Ok tt s ->
  exists ns,
    g_ns s = Some ns /\
    forall k1 k2 c1 c2,
      collections ns !! k1 = Some c1 -> collections ns !! k2 = Some c2 ->
      k1 <> k2 -> _configuration c1 <> _configuration c2.
Proof.
  intros H. unfold construct in H.
  apply construct_from_inv in H as (u & _ & _ & ->).
  destruct (g_ns (final_state lib w u initial_state)) as [ns|] eqn:Hns;
    [|discriminate].
  exists ns. split; [reflexivity|].
  intros k1 k2 c1 c2 H1 H2 Hne.
  destruct (collection_under_key lib w u _ _ ns k1 c1 Hns H1)
    as (i1 & n1 & Hi1 & -> & ->).
  destruct (collection_under_key lib w u _ _ ns k2 c2 Hns H2)
    as (i2 & n2 & Hi2 & -> & ->).
  cbn [_configuration sub_collection]. intros E.
  assert (i1 = i2) as -> by lia.
  apply Hne. congruence.
Qed.

Lemma sub_collections_have_separate_dictionaries_witness :
  exists ns,
    g_ns sample_final = Some ns /\
    forall k1 k2 c1 c2,
      collections ns !! k1 = Some c1 -> collections ns !! k2 = Some c2 ->
      k1 <> k2 -> _configuration c1 <> _configuration c2.
Proof.
  apply (sub_collections_have_separate_dictionaries sample_lib sample_world).
  vm_compute. reflexivity.
Defined.

(** X8.  After a construction that completes, the namespace is one level
    deep and consistently named: every sub-collection carries as its own
    name the very key it is filed under, and has no sub-collection of its
    own. *)
Theorem sub_collections_are_named_by_their_key lib w s :
  construct lib w = Ok tt s ->
  exists ns,
    g_ns s = Some ns /\
    forall k c, collections ns !! k = Some c ->
                name c = Some k /\ collections c = ∅.
Proof.
  intros H. unfold construct in H.
  apply construct_from_inv in H as (u & _ & _ & ->).
  destruct (g_ns (final_state lib w u initial_state)) as [ns|] eqn:Hns;
    [|discriminate].
  exists ns. split; [reflexivity|].
  intros k c Hc.
  destruct (collection_under_key lib w u _ _ ns k c Hns Hc)
    as (i & nm & _ & -> & ->).
  done.
Qed.

Lemma sub_collections_are_named_by_their_key_witness :
  exists ns,
    g_ns sample_final = Some ns /\
    forall k c, collections ns !! k = Some c ->
                name c = Some k /\ collections c = ∅.
Proof.
  apply (sub_collections_are_named_by_their_key sample_lib sample_world).
  vm_compute. reflexivity.
Defined.

(** ** The additions, one after the other *)

Lemma collection_keys_of names w :
  (fun m => transform (transform (mod_name m))) <$> map (module_in w) names
  = transform <$> names.
Proof.
  induction names as [|nm names IH]; [reflexivity|].
  simpl. rewrite transform_idempotent. f_equal. exact IH.
Qed.

(** X9.  The collections are added in the order of the statements: once
    the first [9 + j] statements have run, the namespace holds exactly the
    collections of the first [j] task modules, under their transformed
    names. *)
Theorem collections_are_added_in_source_order lib w j s :
  run (take (9 + j) (program lib w)) initial_state = Ok tt s ->
  exists ns,
    g_ns s = Some ns /\
    dom (collections ns) = list_to_set (transform <$> take j task_modules).
Proof.
  intros H. apply state_after_setup in H as (u & _ & _ & ->).
  eexists. split; [reflexivity|].
  rewrite with_collections_dom. cbn [collections].
  by rewrite dom_empty_L, (left_id_L ∅ (∪)), collection_keys_of.
Qed.

Lemma collections_are_added_in_source_order_witness :
  exists ns,
    g_ns (after_additions sample_lib sample_world sample_u_utils
            (take 3 task_modules) initial_state) = Some ns /\
    dom (collections ns) = list_to_set (transform <$> take 3 task_modules).
Proof.
  apply (collections_are_added_in_source_order sample_lib sample_world 3).
  vm_compute. reflexivity.
Defined.

(** ** New objects *)

(** X10.  A construction that completes, started from any globals and
    store, binds only objects it has created itself: the dictionary of
    [cfg], the namespace's configuration and the configuration of every
    sub-collection are dictionaries that did not exist before. *)
Theorem constructed_objects_are_new lib w s0 s :
  construct_from lib w s0 = Ok tt s ->
  exists ns l,
    g_ns s = Some ns /\ g_cfg s = Some l /\
    heap s0 !! l = None /\ heap s0 !! _configuration ns = None /\
    forall k c, collections ns !! k = Some c ->
                heap s0 !! _configuration c = None.
Proof.
  intros H. apply construct_from_inv in H as (u & _ & _ & ->).
  destruct (g_ns (final_state lib w u s0)) as [ns|] eqn:Hns; [|discriminate].
  exists ns, (S (length (heap s0))).
  split; [reflexivity|]. split; [reflexivity|].
  split; [apply lookup_ge_None_2; lia|]. split.
  - unfold final_state, after_additions in Hns. cbn [g_ns] in Hns.
    apply (inj Some) in Hns. subst ns.
    rewrite with_collections_configuration. cbn [_configuration].
    apply lookup_ge_None_2. lia.
  - intros k c Hc.
    destruct (collection_under_key lib w u _ _ ns k c Hns Hc)
      as (i & nm & _ & _ & ->).
    cbn [_configuration sub_collection]. apply lookup_ge_None_2. lia.
Qed.

Lemma constructed_objects_are_new_witness :
  exists ns l,
    g_ns (final_state sample_lib sample_world sample_u_utils sample_final)
    = Some ns /\
    g_cfg (final_state sample_lib sample_world sample_u_utils sample_final)
    = Some l /\
    heap sample_final !! l = None /\
    heap sample_final !! _configuration ns = None /\
    forall k c, collections ns !! k = Some c ->
                heap sample_final !! _configuration c = None.
Proof.
  apply (constructed_objects_are_new sample_lib sample_world).
  vm_compute. reflexivity.
Defined.


(** ** Failures after the imports *)



(** X11.  When the imports succeed and [Config()] raises (a settings
    file that cannot be read or parsed, or settings that do not merge),
    the module raises that exception at [cfg = Config()]: [ns] is bound to
    a namespace without sub-collections, tasks or configuration entries,
    and [cfg] is not bound. *)
Theorem settings_that_do_not_load_stop_the_module lib w e :
  imports_succeed lib w ->
  Config_start lib w = inl e ->
  exists s,
    construct lib w = Raise e s /\
    g_ns s = Some (bare_namespace 0) /\ nothing_built s /\ g_cfg s = None.
Proof.
  intros ((x & Hx) & (u & Hu) & Hm & Ha) He.
  pose proof (imports_ok lib w initial_state x u Hx Hu Hm Ha) as Ei.
  eexists. split.
  - unfold construct, construct_from.
    rewrite program_phases, run_app, Ei. unfold setup. cbn [app].
    rewrite (run_cons_ok _ _ _ _
               (new_ns_ok (after_imports w u initial_state) eq_refl)).
    apply run_cons_raise, new_cfg_raise; [reflexivity | exact He].
  - split; [reflexivity|]. split; [|reflexivity].
    right. eexists. by repeat split.
Qed.

Lemma settings_that_do_not_load_stop_the_module_witness :
  exists s,
    construct sample_lib unreadable_world
    = Raise (ValueError "Expecting value: line 1 column 1 (char 0)") s /\
    g_ns s = Some (bare_namespace 0) /\ nothing_built s /\ g_cfg s = None.
Proof.
  apply (settings_that_do_not_load_stop_the_module sample_lib unreadable_world).
  - split; [by exists tt|]. split; [by exists sample_u_utils|].
    split; intros nm _; [by eexists | reflexivity].
  - vm_compute. reflexivity.
Defined.



